(** * Library management: the borrow / return / renew workflow

    A shallow embedding of the transaction workflow of the library
    application: [borrow] (routes/books.py), [return_book], [renew_book],
    [fines], [pay_fine] and [verify_transaction_code] (routes/user.py) and
    [create_transaction_verification] (email_service.py).

    The database is an explicit [State] threaded through every handler.
    Each table is a list whose positions are the primary keys, so a new row
    gets the id [length table].  A handler returns the committed state and
    the response it sent; [db.session.rollback()] is modelled by returning
    the state the handler started from.  [State] holds the tables Book,
    Borrowing, Reservation, TransactionVerification and Notification; the
    EmailLog table, in which [send_email] records the mails that [borrow],
    [return_book], [renew_book] and [reserve] send, and the sending itself
    are left out. *)

From Stdlib Require Import ZArith Ascii String.
From stdpp Require Import base decidable option numbers list strings.

Local Open Scope Z_scope.

(** ** Time *)

(** A naive UTC [datetime] is a number of microseconds since the epoch.  Every
    request reads the clock once: the readings of [datetime.utcnow()] made
    while one request is served are identified with the single [now] the
    handler receives. *)
Definition datetime := Z.

Definition usec_per_hour : Z := 3600000000.
Definition usec_per_day : Z := 24 * usec_per_hour.

(** [timedelta(days=d)] and [timedelta(hours=h)]. *)
Definition timedelta_days (d : Z) : Z := d * usec_per_day.
Definition timedelta_hours (h : Z) : Z := h * usec_per_hour.

(** [t.date()], as a day number, and [(d1 - d2).days] on dates. *)
Definition date (t : datetime) : Z := t / usec_per_day.
Definition days_between (d1 d2 : Z) : Z := d1 - d2.

(** ** Tables *)

Inductive borrowing_status :=
  | Pending | PendingVerification | Borrowed | PendingReturn | Returned.

Inductive reservation_status :=
  | RPending | RFulfilled | RCancelled | RExpired.

Inductive transaction_type := TBorrow | TReturn | TRenew.

Inductive notification_type := NBorrow | NRenewal | NReservation.

#[global] Instance borrowing_status_eq_dec : EqDecision borrowing_status.
Proof. solve_decision. Defined.
#[global] Instance reservation_status_eq_dec : EqDecision reservation_status.
Proof. solve_decision. Defined.
#[global] Instance transaction_type_eq_dec : EqDecision transaction_type.
Proof. solve_decision. Defined.

Record Book := mkBook {
  title : string;
  total_copies : Z;
  available_copies : Z
}.

Record Borrowing := mkBorrowing {
  b_user_id : nat;
  b_book_id : nat;
  status : borrowing_status;
  borrow_date : option datetime;
  due_date : datetime;
  return_date : option datetime;
  renewed_count : Z;
  fine_amount : Z;
  fine_paid : bool
}.

Record Reservation := mkReservation {
  r_user_id : nat;
  r_book_id : nat;
  r_status : reservation_status;
  r_created_at : datetime;
  expiry_date : option datetime;
  notified : bool
}.

Record TransactionVerification := mkVerification {
  v_user_id : nat;
  borrowing_id : nat;
  ttype : transaction_type;
  verification_code : string;
  v_created_at : datetime;
  expires_at : datetime;
  is_verified : bool;
  verified_at : option datetime
}.

(** A notification keeps its recipient, title, type and [related_id]; the
    message text and the action URL are presentation only. *)
Record Notification := mkNotification {
  n_user_id : nat;
  n_title : string;
  n_type : notification_type;
  related_id : option nat
}.

Record State := mkState {
  books : list Book;
  borrowings : list Borrowing;
  reservations : list Reservation;
  verifications : list TransactionVerification;
  notifications : list Notification
}.

(** Field updates, one per assignment the handlers make. *)
Definition set_available (n : Z) (bk : Book) : Book :=
  mkBook (title bk) (total_copies bk) n.

Definition set_status (st : borrowing_status) (b : Borrowing) : Borrowing :=
  mkBorrowing (b_user_id b) (b_book_id b) st (borrow_date b) (due_date b)
    (return_date b) (renewed_count b) (fine_amount b) (fine_paid b).

Definition set_borrow_date (t : datetime) (b : Borrowing) : Borrowing :=
  mkBorrowing (b_user_id b) (b_book_id b) (status b) (Some t) (due_date b)
    (return_date b) (renewed_count b) (fine_amount b) (fine_paid b).

Definition set_return_date (t : datetime) (b : Borrowing) : Borrowing :=
  mkBorrowing (b_user_id b) (b_book_id b) (status b) (borrow_date b) (due_date b)
    (Some t) (renewed_count b) (fine_amount b) (fine_paid b).

Definition set_fine_amount (f : Z) (b : Borrowing) : Borrowing :=
  mkBorrowing (b_user_id b) (b_book_id b) (status b) (borrow_date b) (due_date b)
    (return_date b) (renewed_count b) f (fine_paid b).

Definition set_fine_paid (p : bool) (b : Borrowing) : Borrowing :=
  mkBorrowing (b_user_id b) (b_book_id b) (status b) (borrow_date b) (due_date b)
    (return_date b) (renewed_count b) (fine_amount b) p.

Definition set_renewal (due : datetime) (n : Z) (b : Borrowing) : Borrowing :=
  mkBorrowing (b_user_id b) (b_book_id b) (status b) (borrow_date b) due
    (return_date b) n (fine_amount b) (fine_paid b).

Definition set_r_status (st : reservation_status) (r : Reservation) : Reservation :=
  mkReservation (r_user_id r) (r_book_id r) st (r_created_at r) (expiry_date r)
    (notified r).

Definition set_promoted (expiry : datetime) (r : Reservation) : Reservation :=
  mkReservation (r_user_id r) (r_book_id r) (r_status r) (r_created_at r)
    (Some expiry) true.

Definition set_verified (t : datetime) (v : TransactionVerification)
  : TransactionVerification :=
  mkVerification (v_user_id v) (borrowing_id v) (ttype v) (verification_code v)
    (v_created_at v) (expires_at v) true (Some t).

Definition with_books (bs : list Book) (s : State) : State :=
  mkState bs (borrowings s) (reservations s) (verifications s) (notifications s).
Definition with_borrowings (bs : list Borrowing) (s : State) : State :=
  mkState (books s) bs (reservations s) (verifications s) (notifications s).
Definition with_reservations (rs : list Reservation) (s : State) : State :=
  mkState (books s) (borrowings s) rs (verifications s) (notifications s).
Definition with_verifications (vs : list TransactionVerification) (s : State) : State :=
  mkState (books s) (borrowings s) (reservations s) vs (notifications s).
Definition add_notification (n : Notification) (s : State) : State :=
  mkState (books s) (borrowings s) (reservations s) (verifications s)
    (notifications s ++ [n]).

(** ** Responses *)

(** The text of every [flash] call of the handlers, as a constructor. *)
Inductive flash :=
  | FlashNotAvailable          (* This book is currently not available. *)
  | FlashClearFines            (* Please clear your pending fines before borrowing. *)
  | FlashBorrowLimit           (* You have reached the maximum borrowing limit (5 books). *)
  | FlashAlreadyBorrowed       (* You already have this book borrowed. *)
  | FlashBorrowSubmitted       (* Borrow request submitted. Check your email ... *)
  | FlashReturnRequested       (* Return request created. Check your email ... *)
  | FlashRenewed (due : datetime)  (* Book renewed! New due date: ... *)
  | FlashRenewOverdue          (* Cannot renew overdue books. Please return the book first. *)
  | FlashRenewLimit            (* Maximum renewal limit reached. *)
  | FlashRenewUnable           (* Unable to renew this book. *)
  | FlashEnterCode             (* Please enter a verification code. *)
  | FlashCodeLength            (* Verification code must be 6 characters. *)
  | FlashInvalidCode           (* Invalid verification code. Please check and try again. *)
  | FlashAlreadyVerified       (* This code has already been verified. *)
  | FlashExpired               (* This verification code has expired (valid for 24 hours only). *)
  | FlashNoLongerAvailable     (* Book is no longer available. Please contact admin. *)
  | FlashVerified (t : transaction_type) (book_title : string)
                               (* Verification successful and <t> completed for <title>. *)
  | FlashFinalizeError         (* An error occurred while finalizing the transaction. Please contact admin. *)
  | FlashFinePaid (amount : Z) (* Fine of <amount> paid successfully. *)
  | FlashNoFine.               (* No fine to pay for this borrowing. *)

Inductive response :=
  | NotFound                   (* get_or_404 / first_or_404 aborted the request *)
  | ServerError                (* an exception left the handler *)
  | Flashed (f : flash).       (* flash a message, then redirect *)

(** ** Methods of the models module *)

(** Modelled from the spec: [Book.is_available()] of the models module, which
    is not among the sources.  The book has [available_copies > 0]. *)
Definition is_available (bk : Book) : bool := 0 <? available_copies bk.

(** Modelled from the spec: [TransactionVerification.is_expired()] of the
    models module.  A code is expired when [expires_at < now]. *)
Definition is_expired (v : TransactionVerification) (now : datetime) : bool :=
  expires_at v <? now.

(** Modelled from the spec: [Borrowing.is_overdue()] of the models module.
    A borrowing is overdue when [due_date < now]. *)
Definition is_overdue (b : Borrowing) (now : datetime) : bool :=
  due_date b <? now.

(** Configuration: [max_renewals], [max_borrow_days], [fine_per_day]. *)
Definition max_renewals : Z := 2.
Definition max_borrow_days : Z := 14.
Definition fine_per_day : Z := 5.

(** Modelled from the spec: [Borrowing.can_renew()] of the models module.  A
    borrowing may renew if it is not overdue and [renewed_count < 2]. *)
Definition can_renew (b : Borrowing) (now : datetime) : bool :=
  negb (is_overdue b now) && (renewed_count b <? max_renewals).

(** Modelled from the spec: [Borrowing.renew()] of the models module.  On
    success the due date is extended by 14 days from the original due date
    and [renewed_count] is incremented; the method answers whether it did so
    ([None] stands for [False], the borrowing being left as it was). *)
Definition renew (b : Borrowing) (now : datetime) : option Borrowing :=
  if can_renew b now
  then Some (set_renewal (due_date b + timedelta_days max_borrow_days)
                         (renewed_count b + 1) b)
  else None.

(** Modelled from the spec: [Borrowing.calculate_fine()] of the models module.
    [days_overdue] is the whole-day difference of the current date and the due
    date; the fine is [max(0, days_overdue) * fine_per_day]. *)
Definition calculate_fine (b : Borrowing) (now : datetime) : Z :=
  Z.max 0 (days_between (date now) (date (due_date b))) * fine_per_day.

(** ** Verification codes *)

(** [str.strip()], [str.upper()] and [len()] on a form field all of whose
    characters are ASCII ([ascii_only], below): there a string is the
    sequence of the characters of the field, [strip] removes the ASCII white
    space of Python, [upper] maps a-z to A-Z and [String.length] counts the
    characters.  On a field with other characters Python also strips Unicode
    white space, maps non-ASCII letters and counts characters, not bytes;
    that is outside these definitions. *)
Definition is_space (c : ascii) : bool :=
  let n := nat_of_ascii c in
  (((9 <=? n) && (n <=? 13)) || ((28 <=? n) && (n <=? 32)))%nat.

Fixpoint lstrip (s : string) : string :=
  match s with
  | EmptyString => EmptyString
  | String c s' => if is_space c then lstrip s' else s
  end.

Fixpoint rstrip (s : string) : string :=
  match s with
  | EmptyString => EmptyString
  | String c s' =>
      match rstrip s' with
      | EmptyString => if is_space c then EmptyString else String c EmptyString
      | t => String c t
      end
  end.

Definition strip (s : string) : string := rstrip (lstrip s).

Definition upper_char (c : ascii) : ascii :=
  let n := nat_of_ascii c in
  if ((97 <=? n) && (n <=? 122))%nat then ascii_of_nat (n - 32) else c.

Fixpoint upper (s : string) : string :=
  match s with
  | EmptyString => EmptyString
  | String c s' => String (upper_char c) (upper s')
  end.

(** The form fields on which [strip], [upper] and [String.length] are what
    Python computes: every character is below 128. *)
Fixpoint ascii_only (s : string) : bool :=
  match s with
  | EmptyString => true
  | String c s' => (nat_of_ascii c <? 128)%nat && ascii_only s'
  end.

(** [create_transaction_verification]: a new record that expires 24 hours
    after its creation.  [code] is the value [generate_verification_code]
    drew.  The record passes no [is_verified], [verified_at] or [created_at];
    their column defaults (not verified, created now) are modelled from the
    spec. *)
Definition create_transaction_verification
    (s : State) (user_id borrowing_id : nat) (t : transaction_type)
    (now : datetime) (code : string) : State :=
  let expires_at := now + timedelta_hours 24 in
  let verification :=
    mkVerification user_id borrowing_id t code now expires_at false None in
  with_verifications (verifications s ++ [verification]) s.

(** ** Handlers *)

(** The pending reservation [Reservation.query.filter_by(user_id, book_id,
    status='pending').first()] returns, with its row id. *)
Definition pending_reservation_of (s : State) (user_id book_id : nat)
  : option (nat * Reservation) :=
  list_find (λ r, r_user_id r = user_id ∧ r_book_id r = book_id ∧ r_status r = RPending)
            (reservations s).

(** [Borrowing.query.filter_by(user_id, book_id, status='borrowed').first()]. *)
Definition existing_borrowing (s : State) (user_id book_id : nat)
  : option (nat * Borrowing) :=
  list_find (λ b, b_user_id b = user_id ∧ b_book_id b = book_id ∧ status b = Borrowed)
            (borrowings s).

(** [Borrowing.query.filter_by(id, user_id, status='borrowed').first_or_404()]. *)
Definition borrowed_by (s : State) (borrowing_id user_id : nat) : option Borrowing :=
  match borrowings s !! borrowing_id with
  | Some b =>
      if decide (b_user_id b = user_id ∧ status b = Borrowed) then Some b else None
  | None => None
  end.

Section Borrow.

(** [User.can_borrow()] and [User.get_total_fine()] belong to the models
    module; [borrow] only reads their answers, so they are parameters. *)
Variable can_borrow : State → nat → bool.
Variable get_total_fine : State → nat → Z.

(** [borrow(book_id)] in routes/books.py.  The row that [borrow] creates
    passes the user, the book, the due date and the status.  The column
    defaults of the models module are modelled from the spec: a new
    borrowing has no borrow or return date yet, no renewal and no fine. *)
Definition borrow (s : State) (current_user book_id : nat) (now : datetime)
    (code : string) : State * response :=
  match books s !! book_id with
  | None => (s, NotFound)
  | Some book =>
      if negb (is_available book) then (s, Flashed FlashNotAvailable)
      else if negb (can_borrow s current_user) then
        if 0 <? get_total_fine s current_user
        then (s, Flashed FlashClearFines)
        else (s, Flashed FlashBorrowLimit)
      else
        match existing_borrowing s current_user book_id with
        | Some _ => (s, Flashed FlashAlreadyBorrowed)
        | None =>
            let due_date := now + timedelta_days 14 in
            let borrowing :=
              mkBorrowing current_user book_id Pending None due_date None 0 0 false in
            let new_id := length (borrowings s) in
            let s1 :=
              match pending_reservation_of s current_user book_id with
              | Some (i, reservation) =>
                  with_reservations
                    (<[i := set_r_status RFulfilled reservation]> (reservations s)) s
              | None => s
              end in
            let s2 := with_borrowings (borrowings s1 ++ [borrowing]) s1 in
            let notification :=
              mkNotification current_user ("Book Borrow Request: " +:+ title book)
                             NBorrow (Some new_id) in
            let s3 := add_notification notification s2 in
            let s4 := create_transaction_verification s3 current_user new_id
                                                      TBorrow now code in
            (s4, Flashed FlashBorrowSubmitted)
        end
  end.

End Borrow.

(** [return_book(borrowing_id)] in routes/user.py. *)
Definition return_book (s : State) (current_user borrowing_id : nat)
    (now : datetime) (code : string) : State * response :=
  match borrowed_by s borrowing_id current_user with
  | None => (s, NotFound)
  | Some borrowing =>
      let s1 := create_transaction_verification s current_user borrowing_id
                                                TReturn now code in
      let s2 := with_borrowings
                  (<[borrowing_id := set_status PendingReturn borrowing]> (borrowings s1))
                  s1 in
      (s2, Flashed FlashReturnRequested)
  end.

(** [renew_book(borrowing_id)] in routes/user.py.  The renewal is committed
    before the notification is built; building it reads [borrowing.book.title],
    which raises when the book row is gone. *)
Definition renew_book (s : State) (current_user borrowing_id : nat)
    (now : datetime) (code : string) : State * response :=
  match borrowed_by s borrowing_id current_user with
  | None => (s, NotFound)
  | Some borrowing =>
      match renew borrowing now with
      | Some renewed =>
          let s1 := with_borrowings (<[borrowing_id := renewed]> (borrowings s)) s in
          match books s1 !! b_book_id renewed with
          | None => (s1, ServerError)
          | Some book =>
              let notification :=
                mkNotification current_user ("Book Renewed: " +:+ title book)
                               NRenewal (Some borrowing_id) in
              let s2 := add_notification notification s1 in
              let s3 := create_transaction_verification s2 current_user borrowing_id
                                                        TRenew now code in
              (s3, Flashed (FlashRenewed (due_date renewed)))
          end
      | None =>
          if is_overdue borrowing now then (s, Flashed FlashRenewOverdue)
          else if 2 <=? renewed_count borrowing then (s, Flashed FlashRenewLimit)
          else (s, Flashed FlashRenewUnable)
      end
  end.

(** *** Fines *)

(** The filter of [fines] and the guard of [pay_fine]: not yet returned and
    past the due date. *)
Definition fine_outstanding (b : Borrowing) (now : datetime) : bool :=
  match return_date b with
  | None => due_date b <? now
  | Some _ => false
  end.

(** [days_overdue] and [fine_amount] as [fines], [pay_fine] and
    [pay_all_fines] compute them. *)
Definition days_overdue (b : Borrowing) (now : datetime) : Z :=
  days_between (date now) (date (due_date b)).

Definition overdue_fine (b : Borrowing) (now : datetime) : Z :=
  days_overdue b now * 5.

Record fine_entry := mkFineEntry {
  fe_id : nat;
  fe_days_overdue : Z;
  fe_amount : Z
}.

(** The [outstanding_fines] list of [fines], over the rows from [i] on. *)
Fixpoint outstanding_fines_from (i : nat) (bs : list Borrowing) (current_user : nat)
    (now : datetime) : list fine_entry :=
  match bs with
  | [] => []
  | b :: bs' =>
      let rest := outstanding_fines_from (S i) bs' current_user now in
      if decide (b_user_id b = current_user) then
        if fine_outstanding b now
        then mkFineEntry i (days_overdue b now) (overdue_fine b now) :: rest
        else rest
      else rest
  end.

(** [fines()]: the outstanding fines of the user and their total. *)
Definition fines (s : State) (current_user : nat) (now : datetime)
  : list fine_entry * Z :=
  let outstanding_fines := outstanding_fines_from 0 (borrowings s) current_user now in
  (outstanding_fines, foldr (λ e acc, fe_amount e + acc) 0 outstanding_fines).

(** [pay_fine(fine_id)]; the handler flashes its success message twice, which
    the response records once. *)
Definition pay_fine (s : State) (current_user fine_id : nat) (now : datetime)
  : State * response :=
  match borrowings s !! fine_id with
  | None => (s, NotFound)
  | Some borrowing =>
      if decide (b_user_id borrowing = current_user) then
        if fine_outstanding borrowing now then
          let fine_amount := overdue_fine borrowing now in
          let paid := set_fine_paid true (set_fine_amount fine_amount borrowing) in
          (with_borrowings (<[fine_id := paid]> (borrowings s)) s,
           Flashed (FlashFinePaid fine_amount))
        else (s, Flashed FlashNoFine)
      else (s, NotFound)
  end.

(** *** Verification and finalization *)

(** [TransactionVerification.query.filter_by(user_id, verification_code)
    .first()], with the row id. *)
Definition find_verification (s : State) (user_id : nat) (code : string)
  : option (nat * TransactionVerification) :=
  list_find (λ v, v_user_id v = user_id ∧ verification_code v = code)
            (verifications s).

(** The guard [borrowing.status in ['pending', 'pending_verification'] or
    borrowing.status == 'pending']. *)
Definition awaits_confirmation (st : borrowing_status) : bool :=
  match st with
  | Pending | PendingVerification => true
  | _ => false
  end.

Definition waiting_for (book_id : nat) (r : Reservation) : bool :=
  bool_decide (r_book_id r = book_id ∧ r_status r = RPending).

(** [Reservation.query.filter_by(book_id, status='pending')
    .order_by(Reservation.created_at).first()] over the rows from [i] on: the
    pending reservation of the book with the least [created_at], the earliest
    row among equals. *)
Fixpoint next_reservation_from (i : nat) (rs : list Reservation) (book_id : nat)
  : option (nat * Reservation) :=
  match rs with
  | [] => None
  | r :: rs' =>
      let later := next_reservation_from (S i) rs' book_id in
      if waiting_for book_id r then
        match later with
        | Some (j, r') =>
            if r_created_at r' <? r_created_at r then Some (j, r') else Some (i, r)
        | None => Some (i, r)
        end
      else later
  end.

Definition next_reservation (s : State) (book_id : nat) : option (nat * Reservation) :=
  next_reservation_from 0 (reservations s) book_id.

(** The end of the [try] block: [db.session.commit()], then the success
    message, which reads [borrowing.book.title].  When the book row is gone
    that read raises after the commit, and the handler answers with the
    finalization error. *)
Definition commit_and_flash (s : State) (t : transaction_type) (b : Borrowing)
  : State * response :=
  match books s !! b_book_id b with
  | Some book => (s, Flashed (FlashVerified t (title book)))
  | None => (s, Flashed FlashFinalizeError)
  end.

(** The body of the [try] block of [verify_transaction_code], run on the
    session [s] in which the code is already marked verified.  [None] is an
    exception raised before the commit. *)
Definition finalize (s : State) (current_user : nat) (v : TransactionVerification)
    (now : datetime) : option (State * response) :=
  match borrowings s !! borrowing_id v with
  | None => None
  | Some borrowing =>
      match ttype v with
      | TBorrow =>
          if awaits_confirmation (status borrowing) then
            match books s !! b_book_id borrowing with
            | None => None
            | Some book =>
                if available_copies book <=? 0
                then Some (s, Flashed FlashNoLongerAvailable)
                else
                  let book' := set_available (available_copies book - 1) book in
                  let borrowing' := set_borrow_date now (set_status Borrowed borrowing) in
                  let s1 := with_books (<[b_book_id borrowing := book']> (books s)) s in
                  let s2 := with_borrowings
                              (<[borrowing_id v := borrowing']> (borrowings s1)) s1 in
                  let notification :=
                    mkNotification current_user ("Book Borrowed: " +:+ title book)
                                   NBorrow (Some (borrowing_id v)) in
                  let s3 := add_notification notification s2 in
                  Some (commit_and_flash s3 TBorrow borrowing')
            end
          else Some (commit_and_flash s TBorrow borrowing)
      | TReturn =>
          match books s !! b_book_id borrowing with
          | None => None
          | Some book =>
              let returned := set_return_date now borrowing in
              let fine := calculate_fine returned now in
              let borrowing' := set_status Returned (set_fine_amount fine returned) in
              let book' := set_available (available_copies book + 1) book in
              let s1 := with_books (<[b_book_id borrowing := book']> (books s)) s in
              let s2 := with_borrowings
                          (<[borrowing_id v := borrowing']> (borrowings s1)) s1 in
              let s3 :=
                match next_reservation s2 (b_book_id borrowing) with
                | Some (i, next) =>
                    let notification :=
                      mkNotification (r_user_id next) "Book Available!" NReservation None in
                    let next' := set_promoted (now + timedelta_days 3) next in
                    add_notification notification
                      (with_reservations (<[i := next']> (reservations s2)) s2)
                | None => s2
                end in
              Some (commit_and_flash s3 TReturn borrowing')
          end
      | TRenew =>
          if can_renew borrowing now then
            match renew borrowing now with
            | Some renewed =>
                let s1 := with_borrowings
                            (<[borrowing_id v := renewed]> (borrowings s)) s in
                Some (commit_and_flash s1 TRenew renewed)
            | None => Some (commit_and_flash s TRenew borrowing)
            end
          else Some (commit_and_flash s TRenew borrowing)
      end
  end.

(** [verify_transaction_code()] in routes/user.py, on the raw form field. *)
Definition verify_transaction_code (s : State) (current_user : nat)
    (form_code : string) (now : datetime) : State * response :=
  let code := upper (strip form_code) in
  if decide (code = EmptyString) then (s, Flashed FlashEnterCode)
  else if negb (String.length code =? 6)%nat then (s, Flashed FlashCodeLength)
  else
    match find_verification s current_user code with
    | None => (s, Flashed FlashInvalidCode)
    | Some (i, verification) =>
        if is_verified verification then (s, Flashed FlashAlreadyVerified)
        else if is_expired verification now then (s, Flashed FlashExpired)
        else
          let verification' := set_verified now verification in
          let s0 := with_verifications (<[i := verification']> (verifications s)) s in
          match finalize s0 current_user verification' now with
          | Some committed => committed
          | None => (s, Flashed FlashFinalizeError)
          end
    end.

(** ** Vocabulary of the properties *)

(** A form field [form_code] presents the record [v] at row [i] for [user]
    when its normal form has six characters and the lookup finds the row. *)
Definition presents (s : State) (user : nat) (form_code : string)
    (i : nat) (v : TransactionVerification) : Prop :=
  String.length (upper (strip form_code)) = 6%nat ∧
  find_verification s user (upper (strip form_code)) = Some (i, v).

(** The session in which [verify_transaction_code] runs its [try] block. *)
Definition mark_verified (s : State) (i : nat) (v : TransactionVerification)
    (now : datetime) : State :=
  with_verifications (<[i := set_verified now v]> (verifications s)) s.

Ltac finalize_cases :=
  unfold finalize, commit_and_flash in *;
  repeat case_match; simplify_eq/=.


(** ** The workflow as a transition system *)

Inductive request :=
  | BorrowRequest (user book_id : nat) (code : string)
  | ReturnRequest (user borrowing_id : nat) (code : string)
  | RenewRequest (user borrowing_id : nat) (code : string)
  | VerifyRequest (user : nat) (form_code : string).

Section Workflow.

Variable can_borrow : State → nat → bool.
Variable get_total_fine : State → nat → Z.

(** One request, served at time [now]. *)
Definition handle (s : State) (now : datetime) (req : request) : State * response :=
  match req with
  | BorrowRequest user book_id code =>
      borrow can_borrow get_total_fine s user book_id now code
  | ReturnRequest user borrowing_id code => return_book s user borrowing_id now code
  | RenewRequest user borrowing_id code => renew_book s user borrowing_id now code
  | VerifyRequest user form_code => verify_transaction_code s user form_code now
  end.

(** The state after a sequence of requests, served one after the other. *)
Definition run (s : State) (reqs : list (datetime * request)) : State :=
  foldl (λ s' tr, (handle s' tr.1 tr.2).1) s reqs.

End Workflow.

(** ** Copy accounting *)

(** The invariant of the [Book] table: [0 <= available_copies <= total_copies]
    for every book. *)
Definition copies_invariant (s : State) : Prop :=
  ∀ k bk, books s !! k = Some bk →
          0 <= available_copies bk ∧ available_copies bk <= total_copies bk.

(** A borrowing holds a copy of its book from the confirmation of the borrow
    to the confirmation of the return. *)
Definition on_loan (st : borrowing_status) : bool :=
  match st with
  | Borrowed | PendingReturn => true
  | _ => false
  end.

Definition holds_copy_of (k : nat) (b : Borrowing) : bool :=
  bool_decide (b_book_id b = k) && on_loan (status b).

(** The number of copies of book [k] that are out. *)
Fixpoint loans (bs : list Borrowing) (k : nat) : Z :=
  match bs with
  | [] => 0
  | b :: bs' => (if holds_copy_of k b then 1 else 0) + loans bs' k
  end.

(** A return code that has not been confirmed yet. *)
Definition open_return_code (v : TransactionVerification) : Prop :=
  ttype v = TReturn ∧ is_verified v = false.

(** A state is consistent when the copies that are out are accounted for in
    every book, and the open return codes name distinct borrowings that wait
    for their return to be confirmed. *)
Record consistent (s : State) : Prop := mkConsistent {
  copies_accounted :
    ∀ k bk, books s !! k = Some bk →
            0 <= available_copies bk ∧
            available_copies bk + loans (borrowings s) k <= total_copies bk;
  return_codes_live :
    ∀ i v, verifications s !! i = Some v → open_return_code v →
           ∃ b, borrowings s !! borrowing_id v = Some b ∧ status b = PendingReturn;
  return_codes_distinct :
    ∀ i j v w, verifications s !! i = Some v → verifications s !! j = Some w →
               open_return_code v → open_return_code w →
               borrowing_id v = borrowing_id w → i = j
}.

(** ** Sample libraries *)

Definition at_day (d : Z) : datetime := d * usec_per_day.

Definition always_allowed : State → nat → bool := λ _ _, true.
Definition never_allowed : State → nat → bool := λ _ _, false.
Definition no_fine : State → nat → Z := λ _ _, 0.

(** One book with a single copy on the shelf and no history. *)
Definition one_copy_library : State :=
  mkState [mkBook "Dune" 1 1] [] [] [] [].

(** One book with a single copy, [avail] of them on the shelf; reader 7 has a
    borrowing of it in status [st], due on day 10, and a code of type [t]
    issued at noon of day 14; readers 8, 9 and 7 wait for the book, reader 9
    for the longest. *)
Definition sample_book (avail : Z) : Book := mkBook "Dune" 1 avail.
Definition sample_borrowing (st : borrowing_status) : Borrowing :=
  mkBorrowing 7 0 st None (at_day 10) None 0 0 false.
Definition sample_code (t : transaction_type) : TransactionVerification :=
  mkVerification 7 0 t "AB12CD" (at_day 14 + timedelta_hours 12)
    (at_day 15 + timedelta_hours 12) false None.

Definition library_with (avail : Z) (st : borrowing_status) (t : transaction_type)
  : State :=
  mkState
    [sample_book avail]
    [sample_borrowing st]
    [mkReservation 8 0 RPending (at_day 5) None false;
     mkReservation 9 0 RPending (at_day 3) None false;
     mkReservation 7 0 RPending (at_day 6) None false]
    [sample_code t]
    [].

(** Reader 7 borrows the book, confirms, returns it and confirms again. *)
Definition borrow_and_return : list (datetime * request) :=
  [(at_day 1, BorrowRequest 7 0 "AB12CD");
   (at_day 1, VerifyRequest 7 " ab12cd ");
   (at_day 9, ReturnRequest 7 0 "RET001");
   (at_day 9, VerifyRequest 7 "ret001")].

(** No borrowing has been renewed more often than [max_renewals] allows. *)
Definition renewals_bounded (s : State) : Prop :=
  ∀ j b, borrowings s !! j = Some b → renewed_count b <= max_renewals.

(** ** Reservations, fines and codes around the workflow *)

(** The [flash] texts of [reserve], [cancel_reservation] and [pay_all_fines]. *)
Inductive notice :=
  | NoticeBorrowDirectly       (* This book is available. You can borrow it directly. *)
  | NoticeAlreadyReserved      (* You already have a reservation for this book. *)
  | NoticeReserved             (* Book reserved successfully! We will notify you ... *)
  | NoticeCancelled            (* Reservation cancelled successfully. *)
  | NoticeAllFinesPaid (total : Z)  (* All fines paid successfully via ... Total: <total> *)
  | NoticeNoOutstandingFines.  (* No outstanding fines to pay. *)

Inductive outcome :=
  | Missing                    (* get_or_404 / first_or_404 aborted the request *)
  | Noticed (n : notice).      (* flash a message, then redirect *)

(** [reserve(book_id)] in routes/books.py, on the tables of [State]: the mail
    that an accepted request sends, and the EmailLog row that [send_email]
    writes for it, are outside [State].  The row passes the user and the
    book; the column defaults of the models module are modelled from the
    spec: a new reservation is pending, created now, without expiry date and
    not notified. *)
Definition reserve (s : State) (current_user book_id : nat) (now : datetime)
  : State * outcome :=
  match books s !! book_id with
  | None => (s, Missing)
  | Some book =>
      if is_available book then (s, Noticed NoticeBorrowDirectly)
      else
        match pending_reservation_of s current_user book_id with
        | Some _ => (s, Noticed NoticeAlreadyReserved)
        | None =>
            let reservation :=
              mkReservation current_user book_id RPending now None false in
            (with_reservations (reservations s ++ [reservation]) s,
             Noticed NoticeReserved)
        end
  end.

(** [cancel_reservation(book_id)] in routes/books.py. *)
Definition cancel_reservation (s : State) (current_user book_id : nat)
  : State * outcome :=
  match pending_reservation_of s current_user book_id with
  | None => (s, Missing)
  | Some (i, reservation) =>
      (with_reservations
         (<[i := set_r_status RCancelled reservation]> (reservations s)) s,
       Noticed NoticeCancelled)
  end.

(** One turn of the loop of [pay_all_fines]: the borrowing of row [i] is
    charged its fine and marked paid, and the fine is added to [total_paid]. *)
Definition pay_one (now : datetime) (acc : list Borrowing * Z) (i : nat)
  : list Borrowing * Z :=
  match acc.1 !! i with
  | Some borrowing =>
      let fine_amount := overdue_fine borrowing now in
      (<[i := set_fine_paid true (set_fine_amount fine_amount borrowing)]> acc.1,
       acc.2 + fine_amount)
  | None => acc
  end.

(** [pay_all_fines()] in routes/user.py: the loop runs over the rows that the
    query of [fines] selects. *)
Definition pay_all_fines (s : State) (current_user : nat) (now : datetime)
  : State * outcome :=
  let outstanding_borrowings := fe_id <$> (fines s current_user now).1 in
  let paid := foldl (pay_one now) (borrowings s, 0) outstanding_borrowings in
  (with_borrowings paid.1 s,
   Noticed (if 0 <? paid.2 then NoticeAllFinesPaid paid.2
            else NoticeNoOutstandingFines)).

(** The paid part of [fines()]: [paid_fines] sums the fines of the reader's
    borrowings with [fine_amount > 0] that are marked paid, and
    [all_time_fines] adds it to the outstanding total. *)
Fixpoint paid_fines_of (bs : list Borrowing) (current_user : nat) : Z :=
  match bs with
  | [] => 0
  | b :: bs' =>
      (if decide (b_user_id b = current_user) then
         if (0 <? fine_amount b) && fine_paid b then fine_amount b else 0
       else 0) + paid_fines_of bs' current_user
  end.

Definition paid_fines (s : State) (current_user : nat) : Z :=
  paid_fines_of (borrowings s) current_user.

Definition all_time_fines (s : State) (current_user : nat) (now : datetime) : Z :=
  (fines s current_user now).2 + paid_fines s current_user.

(** [generate_verification_code(length)] in email_service.py:
    [random.choices] draws [length] characters of the population; [draw j] is
    the index of the [j]-th draw, and a code exists when every index is
    inside the population. *)
Definition code_alphabet : list ascii :=
  list_ascii_of_string "ABCDEFGHIJKLMNOPQRSTUVWXYZ0123456789".

Definition generate_verification_code (length : nat) (draw : nat → nat)
  : option string :=
  string_of_list_ascii <$> mapM (λ j, code_alphabet !! draw j) (seq 0 length).

(** The [user_borrowed] and [user_reserved] flags that [detail] hands to the
    book page of a logged-in reader. *)
Definition user_borrowed (s : State) (current_user book_id : nat) : bool :=
  bool_decide (is_Some (existing_borrowing s current_user book_id)).

Definition user_reserved (s : State) (current_user book_id : nat) : bool :=
  bool_decide (is_Some (pending_reservation_of s current_user book_id)).

(** ** The site as a transition system *)

(** A visit is a workflow request or one of the reservation and fine
    requests. *)
Inductive visit :=
  | WorkflowVisit (req : request)
  | ReserveVisit (user book_id : nat)
  | CancelVisit (user book_id : nat)
  | PayFineVisit (user fine_id : nat)
  | PayAllVisit (user : nat).

Section Site.

Variable can_borrow : State → nat → bool.
Variable get_total_fine : State → nat → Z.

Definition serve (s : State) (now : datetime) (v : visit) : State :=
  match v with
  | WorkflowVisit req => (handle can_borrow get_total_fine s now req).1
  | ReserveVisit user book_id => (reserve s user book_id now).1
  | CancelVisit user book_id => (cancel_reservation s user book_id).1
  | PayFineVisit user fine_id => (pay_fine s user fine_id now).1
  | PayAllVisit user => (pay_all_fines s user now).1
  end.

Definition serve_all (s : State) (visits : list (datetime * visit)) : State :=
  foldl (λ s' tv, serve s' tv.1 tv.2) s visits.

End Site.

(** ** Vocabulary of the further properties *)

(** What [pay_all_fines] does to one row. *)
Definition settle_fine (current_user : nat) (now : datetime) (b : Borrowing)
  : Borrowing :=
  if decide (b_user_id b = current_user) then
    if fine_outstanding b now
    then set_fine_paid true (set_fine_amount (overdue_fine b now) b)
    else b
  else b.

(** The place of a status in the life of a borrowing. *)
Definition status_rank (st : borrowing_status) : nat :=
  match st with
  | Pending | PendingVerification => 0
  | Borrowed => 1
  | PendingReturn => 2
  | Returned => 3
  end.

(** A reader has at most one pending reservation of a book. *)
Definition unique_pending (s : State) : Prop :=
  ∀ i j r r', reservations s !! i = Some r → reservations s !! j = Some r' →
              r_status r = RPending → r_status r' = RPending →
              r_user_id r = r_user_id r' → r_book_id r = r_book_id r' → i = j.

(** A string of ASCII white space only. *)
Fixpoint blank (s : string) : bool :=
  match s with
  | EmptyString => true
  | String c s' => is_space c && blank s'
  end.

(** ** Sample visits *)

(** The sample library after reader 7 confirmed the borrow code. *)
Definition consumed_library : State :=
  mark_verified (library_with 0 Borrowed TBorrow) 0 (sample_code TBorrow) (at_day 15).

(** Reader 7 returns the book and confirms; reader 5 reserves and cancels;
    reader 7 pays all fines. *)
Definition busy_day : list (datetime * visit) :=
  [(at_day 15, WorkflowVisit (ReturnRequest 7 0 "RET001"));
   (at_day 15, WorkflowVisit (VerifyRequest 7 "ret001"));
   (at_day 16, ReserveVisit 5 0);
   (at_day 16, PayAllVisit 7);
   (at_day 16, CancelVisit 5 0)].

(** Visits of day 16 and later, when the sample code has expired. *)
Definition late_visits : list (datetime * visit) :=
  [(at_day 16, WorkflowVisit (VerifyRequest 7 "AB12CD"));
   (at_day 17, PayFineVisit 7 0);
   (at_day 17, WorkflowVisit (VerifyRequest 7 " ab12cd "))].

(** Three weeks of a library that starts with one copy on the shelf. *)
Definition first_weeks : list (datetime * visit) :=
  [(at_day 1, WorkflowVisit (BorrowRequest 7 0 "AB12CD"));
   (at_day 1, WorkflowVisit (VerifyRequest 7 "ab12cd"));
   (at_day 2, ReserveVisit 8 0);
   (at_day 20, PayAllVisit 7);
   (at_day 20, WorkflowVisit (ReturnRequest 7 0 "RET001"));
   (at_day 20, WorkflowVisit (VerifyRequest 7 "RET001"))].

(** ** Reviews *)

(** A review keeps its reader, book, rating and text; whether it is approved
    is decided outside these handlers.  The table lists the rows with their
    ids in the order they were inserted.  The application runs on SQLite,
    where the id of a new row is one more than the greatest id in the
    table. *)
Record Review := mkReview {
  rv_user_id : nat;
  rv_book_id : nat;
  rating : Z;
  review_text : string
}.

Definition new_review_id (rows : list (nat * Review)) : nat := S (max_list rows.*1).

(** The [flash] texts of [add_review], [edit_review] and [delete_review]. *)
Inductive review_notice :=
  | ReviewAlreadyGiven         (* You have already reviewed this book. *)
  | ReviewRatingInvalid        (* Please provide a valid rating (1-5). *)
  | ReviewThanks               (* Thank you for your review! *)
  | ReviewUpdated              (* Review updated successfully. *)
  | ReviewIncomplete           (* Please provide both rating and review text. *)
  | ReviewDeleted.             (* Review deleted. *)

Inductive review_outcome :=
  | ReviewMissing              (* get_or_404 / first_or_404 aborted the request *)
  | ReviewCrashed              (* the commit raised and the request ended in a server error *)
  | Reviewed (n : review_notice).

(** What an SQLite INTEGER column holds: a signed integer of 64 bits.  A
    Python integer outside this range makes the commit raise
    [OverflowError]. *)
Definition fits_sqlite_integer (n : Z) : bool :=
  (- 2 ^ 63 <=? n) && (n <? 2 ^ 63).

(** [Review.query.filter_by(user_id, book_id).first()]. *)
Definition review_of (rows : list (nat * Review)) (user_id book_id : nat)
  : option (nat * (nat * Review)) :=
  list_find (λ row, rv_user_id row.2 = user_id ∧ rv_book_id row.2 = book_id) rows.

(** [Review.query.filter_by(id, user_id).first_or_404()]. *)
Definition own_review (rows : list (nat * Review)) (review_id user_id : nat)
  : option (nat * (nat * Review)) :=
  list_find (λ row, row.1 = review_id ∧ rv_user_id row.2 = user_id) rows.

(** [add_review(book_id)] in routes/books.py.  [stars] is the form field
    [rating] read with [type=int] ([None] when it is absent or not a number),
    [text] the field [review_text]. *)
Definition add_review (s : State) (rows : list (nat * Review))
    (current_user book_id : nat) (stars : option Z) (text : string)
  : list (nat * Review) * review_outcome :=
  match books s !! book_id with
  | None => (rows, ReviewMissing)
  | Some _ =>
      match review_of rows current_user book_id with
      | Some _ => (rows, Reviewed ReviewAlreadyGiven)
      | None =>
          match stars with
          | None => (rows, Reviewed ReviewRatingInvalid)
          | Some n =>
              if (n =? 0) || (n <? 1) || (5 <? n)
              then (rows, Reviewed ReviewRatingInvalid)
              else
                let review := mkReview current_user book_id n (strip text) in
                (rows ++ [(new_review_id rows, review)], Reviewed ReviewThanks)
          end
      end
  end.

(** [edit_review(review_id)] in routes/user.py: the update needs a rating
    that is not zero and a text that is not empty.  When the rating does not
    fit the column the commit raises, the exception leaves the handler, and
    the table keeps the review as it was. *)
Definition edit_review (rows : list (nat * Review)) (current_user review_id : nat)
    (stars : option Z) (text : option string)
  : list (nat * Review) * review_outcome :=
  match own_review rows review_id current_user with
  | None => (rows, ReviewMissing)
  | Some (i, (id, review)) =>
      match stars, text with
      | Some n, Some t =>
          if negb (n =? 0) && negb (bool_decide (t = EmptyString)) then
            if fits_sqlite_integer n then
              (<[i := (id, mkReview (rv_user_id review) (rv_book_id review) n t)]> rows,
               Reviewed ReviewUpdated)
            else (rows, ReviewCrashed)
          else (rows, Reviewed ReviewIncomplete)
      | _, _ => (rows, Reviewed ReviewIncomplete)
      end
  end.

(** [delete_review(review_id)] in routes/user.py. *)
Definition delete_review (rows : list (nat * Review)) (current_user review_id : nat)
  : list (nat * Review) * review_outcome :=
  match own_review rows review_id current_user with
  | None => (rows, ReviewMissing)
  | Some (i, _) => (delete i rows, Reviewed ReviewDeleted)
  end.

(** A review table is well formed when its ids are distinct and no reader has
    two reviews of a book. *)
Definition reviews_well_formed (rows : list (nat * Review)) : Prop :=
  (∀ i j row row', rows !! i = Some row → rows !! j = Some row' →
                   row.1 = row'.1 → i = j) ∧
  (∀ i j row row', rows !! i = Some row → rows !! j = Some row' →
                   rv_user_id row.2 = rv_user_id row'.2 →
                   rv_book_id row.2 = rv_book_id row'.2 → i = j).

Definition rated_one_to_five (row : nat * Review) : Prop :=
  1 <= rating row.2 ∧ rating row.2 <= 5.

Inductive review_visit :=
  | AddReview (user book_id : nat) (stars : option Z) (text : string)
  | EditReview (user review_id : nat) (stars : option Z) (text : option string)
  | DeleteReview (user review_id : nat).

Definition serve_review (s : State) (rows : list (nat * Review)) (v : review_visit)
  : list (nat * Review) :=
  match v with
  | AddReview user book_id stars text => (add_review s rows user book_id stars text).1
  | EditReview user review_id stars text => (edit_review rows user review_id stars text).1
  | DeleteReview user review_id => (delete_review rows user review_id).1
  end.

Definition sample_reviews : list (nat * Review) :=
  [(1%nat, mkReview 7 0 4 "Gripping"); (3%nat, mkReview 8 0 5 "A classic")].

(** * Properties *)

(** ** Reading the handlers *)

Lemma verify_usable s u fc now i v :
  presents s u fc i v →
  is_verified v = false → is_expired v now = false →
  verify_transaction_code s u fc now =
    match finalize (mark_verified s i v now) u (set_verified now v) now with
    | Some committed => committed
    | None => (s, Flashed FlashFinalizeError)
    end.
Proof.
  intros [Hlen Hfind] Hver Hexp. unfold verify_transaction_code.
  destruct (decide (upper (strip fc) = EmptyString)) as [E|_].
  { rewrite E in Hlen. discriminate. }
  rewrite Hlen. simpl. rewrite Hfind, Hver, Hexp. reflexivity.
Qed.

Lemma finalize_verifications s u v now s' r :
  finalize s u v now = Some (s', r) → verifications s' = verifications s.
Proof. intros H. finalize_cases; reflexivity. Qed.

Lemma find_verification_marked s u code i v now :
  find_verification s u code = Some (i, v) →
  find_verification (mark_verified s i v now) u code = Some (i, set_verified now v).
Proof.
  unfold find_verification, mark_verified. simpl. intros H.
  apply list_find_Some in H as (Hi & HP & Hleast).
  apply list_find_insert_Some. right; left.
  destruct HP as [Hu Hc].
  split_and!; try done. by eapply lookup_lt_Some.
Qed.

Lemma verify_consumed s u fc now i v s' now' :
  presents s u fc i v →
  verifications s' = verifications (mark_verified s i v now) →
  verify_transaction_code s' u fc now' = (s', Flashed FlashAlreadyVerified).
Proof.
  intros [Hlen Hfind] Hvs. unfold verify_transaction_code.
  destruct (decide (upper (strip fc) = EmptyString)) as [E|_].
  { rewrite E in Hlen. discriminate. }
  rewrite Hlen. simpl.
  apply (find_verification_marked _ _ _ _ _ now) in Hfind.
  unfold find_verification in *. rewrite Hvs, Hfind. reflexivity.
Qed.

Lemma verify_six s u fc now :
  String.length (upper (strip fc)) = 6%nat →
  verify_transaction_code s u fc now =
    match find_verification s u (upper (strip fc)) with
    | None => (s, Flashed FlashInvalidCode)
    | Some (i, v) =>
        if is_verified v then (s, Flashed FlashAlreadyVerified)
        else if is_expired v now then (s, Flashed FlashExpired)
        else match finalize (mark_verified s i v now) u (set_verified now v) now with
             | Some committed => committed
             | None => (s, Flashed FlashFinalizeError)
             end
    end.
Proof.
  intros Hlen. unfold verify_transaction_code.
  destruct (decide (upper (strip fc) = EmptyString)) as [E|_].
  { rewrite E in Hlen. discriminate. }
  rewrite Hlen. reflexivity.
Qed.

Lemma verify_rejects_or_marks s u fc now :
  let s1 := (verify_transaction_code s u fc now).1 in
  s1 = s ∨ ∃ i v, presents s u fc i v ∧ is_verified v = false ∧
                  is_expired v now = false ∧
                  verifications s1 = verifications (mark_verified s i v now).
Proof.
  simpl. unfold verify_transaction_code.
  destruct (decide _) as [E|NE]; [by left|].
  destruct (negb _) eqn:Hlen; [by left|].
  destruct (find_verification _ _ _) as [[i v]|] eqn:Hfind; [|by left].
  destruct (is_verified v) eqn:Hver; [by left|].
  destruct (is_expired v now) eqn:Hexp; [by left|].
  destruct (finalize _ _ _ _) as [[s' r]|] eqn:Hfin; [|by left].
  right. exists i, v. split_and!; try done.
  - split; [|done]. apply negb_false_iff in Hlen. by apply Nat.eqb_eq in Hlen.
  - simpl. by apply finalize_verifications in Hfin.
Qed.

(** C2.  For a form field of ASCII characters whose normal form has six
    characters, [verify_transaction_code] rejects with "invalid" when no record exists for (user, code), with "already verified"
    when the record is verified and with "expired" when [expires_at] has
    passed, each time leaving the state as it was; otherwise it marks the
    record verified (or rolls everything back on a finalization fault).
    Whenever a call changed the state, a second call with the same code
    answers "already verified" and changes nothing.  A new record expires 24
    hours after its creation. *)
Theorem verify_finalizes_at_most_once s u fc now now' :
  ascii_only fc = true →
  String.length (upper (strip fc)) = 6%nat →
  let s1 := (verify_transaction_code s u fc now).1 in
  let r1 := (verify_transaction_code s u fc now).2 in
  match find_verification s u (upper (strip fc)) with
  | None => s1 = s ∧ r1 = Flashed FlashInvalidCode
  | Some (i, v) =>
      if is_verified v then s1 = s ∧ r1 = Flashed FlashAlreadyVerified
      else if expires_at v <? now then s1 = s ∧ r1 = Flashed FlashExpired
      else (s1 = s ∧ r1 = Flashed FlashFinalizeError) ∨
           (verifications s1 = <[i := set_verified now v]> (verifications s) ∧
            r1 ≠ Flashed FlashInvalidCode ∧ r1 ≠ Flashed FlashAlreadyVerified ∧
            r1 ≠ Flashed FlashExpired)
  end ∧
  (s1 ≠ s →
   verify_transaction_code s1 u fc now' = (s1, Flashed FlashAlreadyVerified)) ∧
  (∀ t borrowing code,
     last (verifications (create_transaction_verification s u borrowing t now code))
     = Some (mkVerification u borrowing t code now (now + 24 * usec_per_hour) false None)).
Proof.
  intros _ Hlen. simpl. split_and!.
  - destruct (find_verification _ _ _) as [[i v]|] eqn:Hfind.
    + destruct (is_verified v) eqn:Hver.
      { by rewrite verify_six, Hfind, Hver. }
      destruct (expires_at v <? now) eqn:Hexp.
      { rewrite verify_six, Hfind, Hver by done. unfold is_expired. by rewrite Hexp. }
      rewrite (verify_usable s u fc now i v); [|done..].
      destruct (finalize _ _ _ _) as [[s' r]|] eqn:Hfin; [right|by left].
      simpl. split; [by apply finalize_verifications in Hfin|].
      clear -Hfin. finalize_cases; done.
    + by rewrite verify_six, Hfind.
  - intros Hne. destruct (verify_rejects_or_marks s u fc now) as [?|(i & v & Hp & _ & _ & Hvs)];
      [done|]. by eapply verify_consumed.
  - intros. unfold create_transaction_verification. simpl. by rewrite last_snoc.
Qed.

Lemma next_reservation_from_None rs : ∀ i k,
  next_reservation_from i rs k = None →
  ∀ j' r', rs !! j' = Some r' → waiting_for k r' = false.
Proof.
  induction rs as [|r0 rs IH]; intros i k H j' r' Hj'; [done|].
  simpl in H. destruct j' as [|j']; simplify_eq/=.
  - destruct (waiting_for k r') eqn:?; [by repeat case_match|done].
  - eapply (IH (S i)); [|done]. by repeat case_match.
Qed.

Lemma next_reservation_from_Some rs : ∀ i k j r,
  next_reservation_from i rs k = Some (j, r) →
  (i ≤ j)%nat ∧ rs !! (j - i)%nat = Some r ∧ waiting_for k r = true ∧
  ∀ j' r', rs !! j' = Some r' → waiting_for k r' = true →
           r_created_at r ≤ r_created_at r'.
Proof.
  induction rs as [|r0 rs IH]; intros i k j r H; simpl in H; [done|].
  destruct (next_reservation_from (S i) rs k) as [[j1 r1]|] eqn:Hlater.
  - destruct (IH _ _ _ _ Hlater) as (Hle & Hlook & Hw & Hmin).
    destruct (waiting_for k r0) eqn:Hw0.
    + destruct (r_created_at r1 <? r_created_at r0) eqn:Hlt; simplify_eq.
      * apply Z.ltb_lt in Hlt. split_and!; [lia| |done|].
        { replace (j - i)%nat with (S (j - S i)) by lia. done. }
        intros [|j'] r' Hj' Hw'; simplify_eq/=; [lia|eauto].
      * apply Z.ltb_ge in Hlt. split_and!; [lia| |done|].
        { by rewrite Nat.sub_diag. }
        intros [|j'] r' Hj' Hw'; simplify_eq/=; [lia|].
        specialize (Hmin _ _ Hj' Hw'). lia.
    + simplify_eq. split_and!; [lia| |done|].
      { replace (j - i)%nat with (S (j - S i)) by lia. done. }
      intros [|j'] r' Hj' Hw'; simplify_eq/=; [congruence|eauto].
  - destruct (waiting_for k r0) eqn:Hw0; simplify_eq.
    split_and!; [lia| |done|].
    { by rewrite Nat.sub_diag. }
    intros [|j'] r' Hj' Hw'; simplify_eq/=; [lia|].
    rewrite (next_reservation_from_None _ _ _ Hlater _ _ Hj') in Hw'. done.
Qed.

Lemma waiting_for_true k r :
  waiting_for k r = true ↔ r_book_id r = k ∧ r_status r = RPending.
Proof. unfold waiting_for. by rewrite bool_decide_eq_true. Qed.

Lemma waiting_for_false k r :
  waiting_for k r = false ↔ ¬ (r_book_id r = k ∧ r_status r = RPending).
Proof. unfold waiting_for. by rewrite bool_decide_eq_false. Qed.

(** C3.  Confirming a return code sets the borrowing's [return_date] to now,
    its [fine_amount] to the computed fine and its status to returned, and
    gives the book one more available copy.  If a pending reservation of the
    book exists, the one with the least [created_at] gets [expiry_date] = now +
    3 days and [notified], its owner gets a notification, and no other
    reservation changes; if none exists, reservations and notifications stay
    as they were. *)
Theorem return_verified_promotes_oldest s u fc now i v b bk :
  presents s u fc i v →
  is_verified v = false → is_expired v now = false →
  ttype v = TReturn →
  borrowings s !! borrowing_id v = Some b →
  books s !! b_book_id b = Some bk →
  let s1 := (verify_transaction_code s u fc now).1 in
  (verify_transaction_code s u fc now).2 = Flashed (FlashVerified TReturn (title bk)) ∧
  borrowings s1 =
    <[borrowing_id v :=
        mkBorrowing (b_user_id b) (b_book_id b) Returned (borrow_date b) (due_date b)
          (Some now) (renewed_count b) (calculate_fine b now) (fine_paid b)]>
      (borrowings s) ∧
  books s1 =
    <[b_book_id b := mkBook (title bk) (total_copies bk) (available_copies bk + 1)]>
      (books s) ∧
  match next_reservation s (b_book_id b) with
  | Some (j, r) =>
      reservations s !! j = Some r ∧
      r_book_id r = b_book_id b ∧ r_status r = RPending ∧
      (∀ j' r', reservations s !! j' = Some r' →
                r_book_id r' = b_book_id b → r_status r' = RPending →
                r_created_at r ≤ r_created_at r') ∧
      reservations s1 =
        <[j := mkReservation (r_user_id r) (r_book_id r) (r_status r) (r_created_at r)
                 (Some (now + timedelta_days 3)) true]> (reservations s) ∧
      notifications s1 =
        notifications s ++ [mkNotification (r_user_id r) "Book Available!" NReservation None]
  | None =>
      (∀ j' r', reservations s !! j' = Some r' →
                ¬ (r_book_id r' = b_book_id b ∧ r_status r' = RPending)) ∧
      reservations s1 = reservations s ∧
      notifications s1 = notifications s
  end.
Proof.
  intros Hp Hver Hexp Ht Hb Hbk. destruct Hp as [Hlen Hfind]. simpl.
  rewrite verify_six, Hfind, Hver, Hexp by done.
  unfold finalize. simpl. rewrite Ht, Hb, Hbk.
  assert (Hlt : (b_book_id b < length (books s))%nat) by by eapply lookup_lt_Some.
  unfold commit_and_flash, next_reservation. simpl.
  destruct (next_reservation_from 0 (reservations s) (b_book_id b)) as [[j r]|] eqn:Hnext;
    simpl; rewrite list_lookup_insert_eq by done; simpl.
  - apply next_reservation_from_Some in Hnext as (_ & Hj & Hw & Hmin).
    rewrite Nat.sub_0_r in Hj. apply waiting_for_true in Hw as [Hk Hst].
    split_and!; try done.
    intros j' r' Hj' Hk' Hst'. apply (Hmin j' r' Hj'). by apply waiting_for_true.
  - split_and!; try done.
    intros j' r' Hj'. apply waiting_for_false. by eapply next_reservation_from_None.
Qed.
Lemma borrow_accepted cb gtf s u k now code bk :
  books s !! k = Some bk → is_available bk = true →
  cb s u = true → existing_borrowing s u k = None →
  borrow cb gtf s u k now code =
    (let s1 := match pending_reservation_of s u k with
               | Some (i, reservation) =>
                   with_reservations
                     (<[i := set_r_status RFulfilled reservation]> (reservations s)) s
               | None => s
               end in
     let s2 := with_borrowings
                 (borrowings s1 ++
                    [mkBorrowing u k Pending None (now + timedelta_days 14) None 0 0 false])
                 s1 in
     let s3 := add_notification
                 (mkNotification u ("Book Borrow Request: " +:+ title bk) NBorrow
                    (Some (length (borrowings s)))) s2 in
     create_transaction_verification s3 u (length (borrowings s)) TBorrow now code,
     Flashed FlashBorrowSubmitted).
Proof.
  intros Hbk Hav Hcb Hex. unfold borrow. rewrite Hbk, Hav, Hcb, Hex. reflexivity.
Qed.

Lemma borrow_books cb gtf s u k now code :
  books (borrow cb gtf s u k now code).1 = books s.
Proof. unfold borrow. repeat case_match; reflexivity. Qed.

Lemma return_book_books s u bid now code :
  books (return_book s u bid now code).1 = books s.
Proof. unfold return_book. repeat case_match; reflexivity. Qed.

Lemma renew_book_books s u bid now code :
  books (renew_book s u bid now code).1 = books s.
Proof. unfold renew_book. repeat case_match; reflexivity. Qed.

(** What [verify_transaction_code] can do to the books: nothing, or one copy
    of one book taken by a confirmed borrow, or one copy given back by a
    confirmed return. *)
Lemma verify_books s u fc now :
  let s1 := (verify_transaction_code s u fc now).1 in
  let r1 := (verify_transaction_code s u fc now).2 in
  books s1 = books s ∨
  (∃ k bk, books s !! k = Some bk ∧
           books s1 = <[k := set_available (available_copies bk - 1) bk]> (books s) ∧
           0 < available_copies bk ∧
           r1 = Flashed (FlashVerified TBorrow (title bk))) ∨
  (∃ k bk, books s !! k = Some bk ∧
           books s1 = <[k := set_available (available_copies bk + 1) bk]> (books s) ∧
           r1 = Flashed (FlashVerified TReturn (title bk))).
Proof.
  simpl. unfold verify_transaction_code.
  destruct (decide _); [by left|].
  destruct (negb _); [by left|].
  destruct (find_verification _ _ _) as [[i v]|]; [|by left].
  destruct (is_verified v); [by left|].
  destruct (is_expired v now); [by left|].
  destruct (finalize _ _ _ _) as [[s' r]|] eqn:Hfin; [|by left]. simpl.
  unfold finalize in Hfin. simpl in Hfin.
  destruct (borrowings s !! borrowing_id v) as [b|]; [|done].
  destruct (ttype v).
  - destruct (awaits_confirmation (status b)).
    + destruct (books s !! b_book_id b) as [bk|] eqn:Hbk; [|done].
      destruct (available_copies bk <=? 0) eqn:Hav; [simplify_eq; by left|].
      apply Z.leb_gt in Hav. right; left. exists (b_book_id b), bk.
      unfold commit_and_flash in Hfin. simpl in Hfin.
      rewrite list_lookup_insert_eq in Hfin by by eapply lookup_lt_Some.
      by simplify_eq.
    + unfold commit_and_flash in Hfin. left. by repeat case_match; simplify_eq.
  - destruct (books s !! b_book_id b) as [bk|] eqn:Hbk; [|done].
    right; right. exists (b_book_id b), bk.
    unfold commit_and_flash in Hfin.
    destruct (next_reservation _ _) as [[j r']|]; simpl in Hfin;
      rewrite list_lookup_insert_eq in Hfin by (by eapply lookup_lt_Some);
      by simplify_eq.
  - left. unfold commit_and_flash in Hfin. by repeat case_match; simplify_eq.
Qed.

(** C4.  An accepted borrow request appends a borrowing in status pending, due
    14 days after the request, issues a borrow code and leaves every book as
    it was.  Confirming a borrow code of a pending borrowing takes one copy
    and sets the status to borrowed.  No request lowers [available_copies]
    except a successful confirmation of a borrow code, which lowers it by
    one. *)
Theorem borrow_decrements_on_verification cb gtf s u k now code bk :
  books s !! k = Some bk → is_available bk = true →
  cb s u = true → existing_borrowing s u k = None →
  let s1 := (borrow cb gtf s u k now code).1 in
  ((borrow cb gtf s u k now code).2 = Flashed FlashBorrowSubmitted ∧
   borrowings s1 =
     borrowings s ++ [mkBorrowing u k Pending None (now + 14 * usec_per_day) None 0 0 false] ∧
   books s1 = books s ∧
   verifications s1 =
     verifications s ++
       [mkVerification u (length (borrowings s)) TBorrow code now
          (now + 24 * usec_per_hour) false None]) ∧
  (∀ s' u' fc now' i v b bk',
     presents s' u' fc i v →
     is_verified v = false → is_expired v now' = false → ttype v = TBorrow →
     borrowings s' !! borrowing_id v = Some b → status b = Pending →
     books s' !! b_book_id b = Some bk' → 0 < available_copies bk' →
     let s2 := (verify_transaction_code s' u' fc now').1 in
     (verify_transaction_code s' u' fc now').2
       = Flashed (FlashVerified TBorrow (title bk')) ∧
     books s2 =
       <[b_book_id b := mkBook (title bk') (total_copies bk') (available_copies bk' - 1)]>
         (books s') ∧
     borrowings s2 =
       <[borrowing_id v :=
           mkBorrowing (b_user_id b) (b_book_id b) Borrowed (Some now') (due_date b)
             (return_date b) (renewed_count b) (fine_amount b) (fine_paid b)]>
         (borrowings s')) ∧
  (∀ s' now' req j bj bj',
     books s' !! j = Some bj →
     books (handle cb gtf s' now' req).1 !! j = Some bj' →
     available_copies bj' < available_copies bj →
     available_copies bj' = available_copies bj - 1 ∧
     ∃ u' fc, req = VerifyRequest u' fc ∧
              (handle cb gtf s' now' req).2 = Flashed (FlashVerified TBorrow (title bj))).
Proof.
  intros Hbk Hav Hcb Hex. simpl. split; [|split].
  - rewrite (borrow_accepted cb gtf s u k now code bk) by done. simpl.
    split_and!; try done; by destruct (pending_reservation_of s u k) as [[??]|].
  - intros s' u' fc now' i v b bk' [Hlen Hfind] Hver Hexp Ht Hb Hst Hbk' Hpos.
    rewrite verify_six, Hfind, Hver, Hexp by done.
    unfold finalize. simpl. rewrite Ht, Hb, Hst, Hbk'. simpl.
    apply Z.leb_gt in Hpos. rewrite Hpos. unfold commit_and_flash. simpl.
    rewrite list_lookup_insert_eq by by eapply lookup_lt_Some. done.
  - intros s' now' req j bj bj' Hj Hj' Hlt.
    destruct req as [u' k' c'|u' b' c'|u' b' c'|u' fc]; simpl in *.
    + rewrite borrow_books in Hj'. simplify_eq. lia.
    + rewrite return_book_books in Hj'. simplify_eq. lia.
    + rewrite renew_book_books in Hj'. simplify_eq. lia.
    + destruct (verify_books s' u' fc now') as [E|[(k' & bk' & Hk' & E & Hpos & Hr)|(k' & bk' & Hk' & E & Hr)]];
        simpl in E; rewrite E in Hj'.
      * simplify_eq. lia.
      * destruct (decide (k' = j)) as [->|Hne].
        -- rewrite list_lookup_insert_eq in Hj' by by eapply lookup_lt_Some.
           simplify_eq/=. split; [done|]. eauto.
        -- rewrite list_lookup_insert_ne in Hj' by done. simplify_eq. lia.
      * destruct (decide (k' = j)) as [->|Hne].
        -- rewrite list_lookup_insert_eq in Hj' by by eapply lookup_lt_Some.
           simplify_eq/=. lia.
        -- rewrite list_lookup_insert_ne in Hj' by done. simplify_eq. lia.
Qed.
(** C5.  When a borrow code is confirmed while its book has no available
    copy, the answer is the admin-contact message, not the finalization error;
    books and borrowings (so the copies and the status) are unchanged; the
    code is marked verified, and presenting it again answers "already
    verified". *)
Theorem exhausted_book_consumes_code s u fc now now' i v b bk :
  presents s u fc i v →
  is_verified v = false → is_expired v now = false → ttype v = TBorrow →
  borrowings s !! borrowing_id v = Some b →
  awaits_confirmation (status b) = true →
  books s !! b_book_id b = Some bk →
  available_copies bk <= 0 →
  let s1 := (verify_transaction_code s u fc now).1 in
  let r1 := (verify_transaction_code s u fc now).2 in
  r1 = Flashed FlashNoLongerAvailable ∧
  r1 ≠ Flashed FlashFinalizeError ∧
  books s1 = books s ∧
  borrowings s1 = borrowings s ∧
  reservations s1 = reservations s ∧
  notifications s1 = notifications s ∧
  verifications s1 =
    <[i := mkVerification (v_user_id v) (borrowing_id v) (ttype v) (verification_code v)
             (v_created_at v) (expires_at v) true (Some now)]> (verifications s) ∧
  verify_transaction_code s1 u fc now' = (s1, Flashed FlashAlreadyVerified).
Proof.
  intros Hp Hver Hexp Ht Hb Hst Hbk Hav. simpl.
  assert (E : verify_transaction_code s u fc now
              = (mark_verified s i v now, Flashed FlashNoLongerAvailable)).
  { destruct Hp as [Hlen Hfind]. rewrite verify_six, Hfind, Hver, Hexp by done.
    unfold finalize. simpl. rewrite Ht, Hb, Hst, Hbk.
    apply Z.leb_le in Hav. by rewrite Hav. }
  rewrite E. simpl. split_and!; try done.
  by eapply verify_consumed.
Qed.

(** C6.  When the book is unavailable, or the reader may not borrow (cap
    reached or fines owed), or the reader already has the book borrowed,
    [borrow] answers with the message of that failure and returns the state
    it received: no row of any table is created or changed. *)
Theorem borrow_rejection_mutates_nothing cb gtf s u k now code bk :
  books s !! k = Some bk →
  is_available bk = false ∨ cb s u = false ∨ is_Some (existing_borrowing s u k) →
  let s1 := (borrow cb gtf s u k now code).1 in
  let r1 := (borrow cb gtf s u k now code).2 in
  s1 = s ∧
  (is_available bk = false → r1 = Flashed FlashNotAvailable) ∧
  (is_available bk = true → cb s u = false →
   r1 = Flashed (if 0 <? gtf s u then FlashClearFines else FlashBorrowLimit)) ∧
  (is_available bk = true → cb s u = true → r1 = Flashed FlashAlreadyBorrowed) ∧
  r1 ≠ Flashed FlashBorrowSubmitted ∧
  books s1 = books s ∧ borrowings s1 = borrowings s ∧
  reservations s1 = reservations s ∧ verifications s1 = verifications s ∧
  notifications s1 = notifications s.
Proof.
  intros Hbk Hfail. simpl. unfold borrow. rewrite Hbk.
  destruct (is_available bk) eqn:Hav; simpl.
  - destruct (cb s u) eqn:Hcb; simpl.
    + destruct Hfail as [?|[?|[[j b] Hex]]]; [done..|]. rewrite Hex. simpl.
      split_and!; done.
    + destruct (0 <? gtf s u); simpl; split_and!; done.
  - split_and!; done.
Qed.
Lemma borrowed_by_Some s bid u b :
  borrowings s !! bid = Some b → b_user_id b = u → status b = Borrowed →
  borrowed_by s bid u = Some b.
Proof.
  intros Hb Hu Hst. unfold borrowed_by. rewrite Hb. by rewrite decide_True.
Qed.

(** C7.  For a borrowing in status borrowed (renewed at most twice, as every
    request keeps it), [renew_book] refuses when [renewed_count] is 2 or the
    due date has passed, and otherwise adds one to [renewed_count] and 14 days
    to the due date right away, while the renew code it issues is still
    unverified. *)
Theorem renewal_applies_at_request s u bid now code b bk :
  borrowings s !! bid = Some b → b_user_id b = u → status b = Borrowed →
  books s !! b_book_id b = Some bk →
  renewed_count b <= 2 →
  let s1 := (renew_book s u bid now code).1 in
  let r1 := (renew_book s u bid now code).2 in
  (renewed_count b = 2 ∨ due_date b < now →
   s1 = s ∧
   r1 = Flashed (if due_date b <? now then FlashRenewOverdue else FlashRenewLimit)) ∧
  (renewed_count b ≠ 2 → now <= due_date b →
   r1 = Flashed (FlashRenewed (due_date b + 14 * usec_per_day)) ∧
   borrowings s1 =
     <[bid := mkBorrowing (b_user_id b) (b_book_id b) Borrowed (borrow_date b)
                (due_date b + 14 * usec_per_day) (return_date b)
                (renewed_count b + 1) (fine_amount b) (fine_paid b)]> (borrowings s) ∧
   books s1 = books s ∧
   verifications s1 =
     verifications s ++
       [mkVerification u bid TRenew code now (now + 24 * usec_per_hour) false None]).
Proof.
  intros Hb Hu Hst Hbk Hle. simpl. unfold renew_book.
  rewrite (borrowed_by_Some s bid u b) by done.
  unfold renew, can_renew, is_overdue, max_renewals. split.
  - intros Hrefuse. destruct (due_date b <? now) eqn:Hdue; simpl; [done|].
    apply Z.ltb_ge in Hdue. destruct Hrefuse as [Hc|Hd]; [|lia].
    rewrite Hc. simpl. done.
  - intros Hc Hdue. apply Z.ltb_ge in Hdue. rewrite Hdue. simpl.
    assert (Hlt : (renewed_count b <? 2) = true) by (apply Z.ltb_lt; lia).
    rewrite Hlt. simpl. rewrite Hbk. simpl. unfold set_renewal. rewrite Hst. done.
Qed.
(** No request turns a reservation that is not pending into anything else. *)
Lemma handle_keeps_settled_reservation cb gtf s now req j r :
  reservations s !! j = Some r → r_status r ≠ RPending →
  ∃ r', reservations (handle cb gtf s now req).1 !! j = Some r' ∧
        r_status r' = r_status r.
Proof.
  intros Hj Hst.
  destruct req as [u k c|u b c|u b c|u fc]; simpl.
  - unfold borrow. repeat case_match; simpl; eauto.
    match goal with H : pending_reservation_of _ _ _ = Some _ |- _ =>
      apply list_find_Some in H as (Hi & (_ & _ & Hp) & _) end.
    rewrite list_lookup_insert_ne; [eauto|]. intros ->. simplify_eq.
  - unfold return_book. repeat case_match; simpl; eauto.
  - unfold renew_book. repeat case_match; simpl; eauto.
  - unfold verify_transaction_code.
    repeat (case_match; simpl; eauto).
    match goal with H : finalize _ _ _ _ = Some _ |- _ => rename H into Hfin end.
    unfold finalize, commit_and_flash in Hfin. simpl in Hfin.
    repeat (case_match; simplify_eq/=; eauto).
    all: match goal with H : next_reservation _ _ = Some (?i, _) |- _ =>
      destruct (decide (i = j)) as [->|Hne];
      [ apply next_reservation_from_Some in H as (_ & Hi & _);
        rewrite Nat.sub_0_r in Hi; simpl in Hi; simplify_eq;
        rewrite list_lookup_insert_eq by (by eapply lookup_lt_Some); eauto
      | rewrite list_lookup_insert_ne by done; eauto ] end.
Qed.

Lemma run_keeps_settled_reservation cb gtf reqs : ∀ s j r,
  reservations s !! j = Some r → r_status r ≠ RPending →
  ∃ r', reservations (run cb gtf s reqs) !! j = Some r' ∧ r_status r' = r_status r.
Proof.
  induction reqs as [|[now req] reqs IH]; intros s j r Hj Hst; simpl; [eauto|].
  destruct (handle_keeps_settled_reservation cb gtf s now req j r Hj Hst)
    as (r1 & Hj1 & Hst1).
  destruct (IH _ j r1 Hj1) as (r2 & Hj2 & Hst2); [congruence|].
  exists r2. split; [done|congruence].
Qed.

(** C8.  An accepted borrow request sets the reader's pending reservation of
    the book to fulfilled while the new borrowing is still pending and its
    code unverified; whatever requests follow, failed confirmations included,
    the reservation stays fulfilled. *)
Theorem borrow_request_fulfils_reservation cb gtf s u k now code bk j r :
  books s !! k = Some bk → is_available bk = true →
  cb s u = true → existing_borrowing s u k = None →
  pending_reservation_of s u k = Some (j, r) →
  let s1 := (borrow cb gtf s u k now code).1 in
  (reservations s !! j = Some r ∧ r_user_id r = u ∧ r_book_id r = k ∧
   r_status r = RPending) ∧
  reservations s1 =
    <[j := mkReservation (r_user_id r) (r_book_id r) RFulfilled (r_created_at r)
             (expiry_date r) (notified r)]> (reservations s) ∧
  (status <$> borrowings s1 !! length (borrowings s)) = Some Pending ∧
  (is_verified <$> last (verifications s1)) = Some false ∧
  (∀ reqs, ∃ r', reservations (run cb gtf s1 reqs) !! j = Some r' ∧
                 r_status r' = RFulfilled).
Proof.
  intros Hbk Hav Hcb Hex Hres. simpl.
  rewrite (borrow_accepted cb gtf s u k now code bk) by done.
  rewrite Hres. simpl.
  unfold pending_reservation_of in Hres.
  apply list_find_Some in Hres as (Hj & (Hu & Hk & Hst) & _).
  split_and!; try done.
  - by rewrite list_lookup_middle.
  - by rewrite last_snoc.
  - intros reqs.
    eapply (run_keeps_settled_reservation cb gtf reqs _ j
              (set_r_status RFulfilled r)); [|done].
    simpl. apply list_lookup_insert_eq. by eapply lookup_lt_Some.
Qed.
Lemma date_mono t1 t2 : t1 <= t2 → date t1 <= date t2.
Proof. intros H. unfold date. apply Z.div_le_mono; [done|exact H]. Qed.

Lemma outstanding_fines_from_spec bs : ∀ i u now e,
  e ∈ outstanding_fines_from i bs u now →
  ∃ b, (i ≤ fe_id e)%nat ∧ bs !! (fe_id e - i)%nat = Some b ∧
       b_user_id b = u ∧ fine_outstanding b now = true ∧
       fe_days_overdue e = days_overdue b now ∧ fe_amount e = overdue_fine b now.
Proof.
  induction bs as [|b bs IH]; intros i u now e He; simpl in He.
  { by apply elem_of_nil in He. }
  assert (Hrest : e ∈ outstanding_fines_from (S i) bs u now →
    ∃ b0, (i ≤ fe_id e)%nat ∧ (b :: bs) !! (fe_id e - i)%nat = Some b0 ∧
          b_user_id b0 = u ∧ fine_outstanding b0 now = true ∧
          fe_days_overdue e = days_overdue b0 now ∧ fe_amount e = overdue_fine b0 now).
  { intros H. destruct (IH _ _ _ _ H) as (b0 & Hle & Hl & ?).
    exists b0. split; [lia|]. split; [|done].
    replace (fe_id e - i)%nat with (S (fe_id e - S i)) by lia. done. }
  destruct (decide (b_user_id b = u)) as [Hu|]; [|by auto].
  destruct (fine_outstanding b now) eqn:Hout; [|by auto].
  apply elem_of_cons in He as [->|He]; [|by auto].
  exists b. simpl. rewrite Nat.sub_diag. done.
Qed.






(** C10 (as amended).  Confirming a valid borrow code whose borrowing is in
    neither status pending nor pending_verification marks the code verified
    and reports success, and changes no book, no borrowing, no notification
    and no reservation. *)
Theorem settled_borrow_code_only_marks s u fc now i v b bk :
  presents s u fc i v →
  is_verified v = false → is_expired v now = false → ttype v = TBorrow →
  borrowings s !! borrowing_id v = Some b →
  status b ≠ Pending → status b ≠ PendingVerification →
  books s !! b_book_id b = Some bk →
  let s1 := (verify_transaction_code s u fc now).1 in
  (verify_transaction_code s u fc now).2 = Flashed (FlashVerified TBorrow (title bk)) ∧
  verifications s1 =
    <[i := mkVerification (v_user_id v) (borrowing_id v) (ttype v) (verification_code v)
             (v_created_at v) (expires_at v) true (Some now)]> (verifications s) ∧
  books s1 = books s ∧
  borrowings s1 = borrowings s ∧
  notifications s1 = notifications s ∧
  reservations s1 = reservations s.
Proof.
  intros [Hlen Hfind] Hver Hexp Ht Hb Hst1 Hst2 Hbk. simpl.
  rewrite verify_six, Hfind, Hver, Hexp by done.
  unfold finalize. simpl. rewrite Ht, Hb.
  assert (Hno : awaits_confirmation (status b) = false) by by destruct (status b).
  rewrite Hno. unfold commit_and_flash. simpl. rewrite Hbk. simpl.
  split_and!; try reflexivity.
  unfold set_verified. by rewrite Ht.
Qed.
Lemma loans_nonneg bs k : 0 <= loans bs k.
Proof. induction bs as [|b bs IH]; simpl; [done|]. destruct (holds_copy_of k b); lia. Qed.

Lemma loans_snoc bs b k :
  loans (bs ++ [b]) k = loans bs k + (if holds_copy_of k b then 1 else 0).
Proof. induction bs as [|b0 bs IH]; simpl; [lia|]. rewrite IH. lia. Qed.

Lemma loans_insert bs : ∀ i b b' k,
  bs !! i = Some b →
  loans (<[i := b']> bs) k
  = loans bs k - (if holds_copy_of k b then 1 else 0)
               + (if holds_copy_of k b' then 1 else 0).
Proof.
  induction bs as [|b0 bs IH]; intros [|i] b b' k Hi; simplify_eq/=; [lia|].
  rewrite (IH i b b' k Hi). lia.
Qed.

Lemma consistent_copies_invariant s : consistent s → copies_invariant s.
Proof.
  intros [Hacc _ _] k bk Hk. destruct (Hacc k bk Hk) as [H0 Hle].
  pose proof (loans_nonneg (borrowings s) k). lia.
Qed.

Lemma open_code_marked (vs : list TransactionVerification) i v now j w :
  vs !! i = Some v →
  <[i := set_verified now v]> vs !! j = Some w → open_return_code w →
  j ≠ i ∧ vs !! j = Some w.
Proof.
  intros Hi Hj [_ Hopen]. destruct (decide (j = i)) as [->|Hne].
  - rewrite list_lookup_insert_eq in Hj by by eapply lookup_lt_Some.
    by simplify_eq.
  - by rewrite list_lookup_insert_ne in Hj.
Qed.

Lemma open_code_snoc (vs : list TransactionVerification) c j w :
  (vs ++ [c]) !! j = Some w → vs !! j = Some w ∨ (j = length vs ∧ w = c).
Proof.
  intros H. apply lookup_snoc_Some in H as [[_ H]|[-> ->]]; [by left|by right].
Qed.

Lemma borrow_consistent cb gtf s u k now code :
  consistent s → consistent (borrow cb gtf s u k now code).1.
Proof.
  intros Hs. unfold borrow.
  destruct (books s !! k) as [bk|]; [|done].
  destruct (negb (is_available bk)); [done|].
  destruct (negb (cb s u)); [by destruct (0 <? gtf s u)|].
  destruct (existing_borrowing s u k); [done|].
  destruct Hs as [Hacc Hlive Hdist]. simpl.
  set (new := mkBorrowing u k Pending None (now + timedelta_days 14) None 0 0 false).
  assert (Hbs : borrowings (match pending_reservation_of s u k with
                            | Some (i, reservation) =>
                                with_reservations
                                  (<[i := set_r_status RFulfilled reservation]>
                                     (reservations s)) s
                            | None => s end) = borrowings s)
    by by destruct (pending_reservation_of s u k) as [[??]|].
  assert (Hbk : books (match pending_reservation_of s u k with
                       | Some (i, reservation) =>
                           with_reservations
                             (<[i := set_r_status RFulfilled reservation]>
                                (reservations s)) s
                       | None => s end) = books s)
    by by destruct (pending_reservation_of s u k) as [[??]|].
  assert (Hvs : verifications (match pending_reservation_of s u k with
                       | Some (i, reservation) =>
                           with_reservations
                             (<[i := set_r_status RFulfilled reservation]>
                                (reservations s)) s
                       | None => s end) = verifications s)
    by by destruct (pending_reservation_of s u k) as [[??]|].
  split; simpl; rewrite ?Hbs, ?Hbk, ?Hvs.
  - intros j bj Hj. rewrite loans_snoc. simpl.
    unfold holds_copy_of. simpl. rewrite andb_false_r. rewrite Z.add_0_r. eauto.
  - intros i v Hi Hopen. apply open_code_snoc in Hi as [Hi|[_ ->]].
    + destruct (Hlive i v Hi Hopen) as (b & Hb & Hst). exists b.
      split; [by apply lookup_app_l_Some|done].
    + by destruct Hopen.
  - intros i j v w Hi Hj Hv Hw Heq.
    apply open_code_snoc in Hi as [Hi|[_ ->]]; [|by destruct Hv].
    apply open_code_snoc in Hj as [Hj|[_ ->]]; [|by destruct Hw].
    eauto.
Qed.
Lemma borrowed_by_inv s bid u b :
  borrowed_by s bid u = Some b →
  borrowings s !! bid = Some b ∧ b_user_id b = u ∧ status b = Borrowed.
Proof.
  unfold borrowed_by. destruct (borrowings s !! bid) as [b0|]; [|done].
  destruct (decide _) as [[??]|]; [|done]. by intros [= ->].
Qed.

Lemma return_book_consistent s u bid now code :
  consistent s → consistent (return_book s u bid now code).1.
Proof.
  intros Hs. unfold return_book.
  destruct (borrowed_by s bid u) as [b|] eqn:Hby; [|done].
  apply borrowed_by_inv in Hby as (Hb & _ & Hst).
  destruct Hs as [Hacc Hlive Hdist]. split; simpl.
  - intros j bj Hj. rewrite (loans_insert _ _ b) by done.
    unfold holds_copy_of. simpl. rewrite Hst. simpl.
    destruct (Hacc j bj Hj). destruct (bool_decide _); simpl; lia.
  - intros i v Hi Hopen. apply open_code_snoc in Hi as [Hi|[_ ->]].
    + destruct (Hlive i v Hi Hopen) as (b1 & Hb1 & Hst1). exists b1.
      split; [|done]. rewrite list_lookup_insert_ne; [done|].
      intros ->. simplify_eq. congruence.
    + simpl. exists (set_status PendingReturn b). split; [|reflexivity].
      apply list_lookup_insert_eq. by eapply lookup_lt_Some.
  - intros i j v w Hi Hj Hv Hw Heq.
    apply open_code_snoc in Hi as [Hi|[-> ->]];
      apply open_code_snoc in Hj as [Hj|[-> ->]]; simpl in *.
    + eauto.
    + destruct (Hlive i v Hi Hv) as (b1 & Hb1 & Hst1). rewrite Heq in Hb1.
      simplify_eq. congruence.
    + destruct (Hlive j w Hj Hw) as (b1 & Hb1 & Hst1). rewrite <- Heq in Hb1.
      simplify_eq. congruence.
    + done.
Qed.

Lemma renew_keeps_loan b now b' k :
  renew b now = Some b' →
  status b' = status b ∧ holds_copy_of k b' = holds_copy_of k b.
Proof.
  unfold renew. destruct (can_renew b now); [|done]. by intros [= <-].
Qed.

(** Replacing a borrowing by one of the same status and book keeps a
    consistent state consistent, whatever happens to the notifications. *)
Lemma consistent_replace_borrowing s s' bid b b' :
  consistent s →
  borrowings s !! bid = Some b →
  status b' = status b → (∀ k, holds_copy_of k b' = holds_copy_of k b) →
  books s' = books s →
  borrowings s' = <[bid := b']> (borrowings s) →
  (∀ i v, verifications s' !! i = Some v → open_return_code v →
          verifications s !! i = Some v) →
  consistent s'.
Proof.
  intros [Hacc Hlive Hdist] Hb Hst Hholds Hbooks Hbs Hvs. split.
  - intros j bj Hj. rewrite Hbooks in Hj. rewrite Hbs, (loans_insert _ _ b) by done.
    rewrite Hholds. destruct (Hacc j bj Hj). lia.
  - intros i v Hi Hopen. destruct (Hlive i v (Hvs i v Hi Hopen) Hopen) as (b1 & Hb1 & Hst1).
    rewrite Hbs. destruct (decide (borrowing_id v = bid)) as [E|Hne].
    + rewrite E in *. simplify_eq. exists b'. split; [|congruence].
      apply list_lookup_insert_eq. by eapply lookup_lt_Some.
    + exists b1. by rewrite list_lookup_insert_ne.
  - intros i j v w Hi Hj Hv Hw. eauto.
Qed.

Lemma renew_book_consistent s u bid now code :
  consistent s → consistent (renew_book s u bid now code).1.
Proof.
  intros Hs. unfold renew_book.
  destruct (borrowed_by s bid u) as [b|] eqn:Hby; [|done].
  apply borrowed_by_inv in Hby as (Hb & _ & Hst).
  destruct (renew b now) as [b'|] eqn:Hrenew; [|by repeat case_match].
  assert (Hkeep : ∀ k, holds_copy_of k b' = holds_copy_of k b)
    by (intros k; by eapply renew_keeps_loan).
  destruct (renew_keeps_loan b now b' 0%nat Hrenew) as [Hst' _].
  simpl. destruct (books s !! b_book_id b') as [bk|]; simpl.
  - eapply (consistent_replace_borrowing s _ bid b b'); try done.
    simpl. intros i v Hi Hopen. apply open_code_snoc in Hi as [Hi|[_ ->]]; [done|].
    by destruct Hopen.
  - by eapply (consistent_replace_borrowing s _ bid b b').
Qed.
Lemma holds_copy_of_same k b : b_book_id b = k → holds_copy_of k b = on_loan (status b).
Proof. intros H. unfold holds_copy_of. by rewrite bool_decide_eq_true_2. Qed.

Lemma holds_copy_of_other k b : b_book_id b ≠ k → holds_copy_of k b = false.
Proof. intros H. unfold holds_copy_of. by rewrite bool_decide_eq_false_2. Qed.

(** Marking a code verified keeps a consistent state consistent. *)
Lemma consistent_marked s s' i v now :
  consistent s → verifications s !! i = Some v →
  books s' = books s → borrowings s' = borrowings s →
  verifications s' = <[i := set_verified now v]> (verifications s) →
  consistent s'.
Proof.
  intros [Hacc Hlive Hdist] Hi Hbooks Hbs Hvs. split; rewrite ?Hbooks, ?Hbs, ?Hvs.
  - done.
  - intros j w Hj Hopen.
    destruct (open_code_marked _ _ _ _ _ _ Hi Hj Hopen) as [_ Hj']. eauto.
  - intros j1 j2 w1 w2 Hj1 Hj2 Hw1 Hw2.
    destruct (open_code_marked _ _ _ _ _ _ Hi Hj1 Hw1) as [_ Hj1'].
    destruct (open_code_marked _ _ _ _ _ _ Hi Hj2 Hw2) as [_ Hj2']. eauto.
Qed.

(** A copy of a book changes hands together with the status of one borrowing:
    the book's [available_copies] moves by what the borrowing stops or starts
    to hold, and no open return code names that borrowing afterwards. *)
Lemma consistent_transfer s s' bid b b' bk avail :
  consistent s →
  borrowings s !! bid = Some b → books s !! b_book_id b = Some bk →
  b_book_id b' = b_book_id b →
  0 <= avail →
  avail + (if on_loan (status b') then 1 else 0)
    = available_copies bk + (if on_loan (status b) then 1 else 0) →
  books s' = <[b_book_id b := set_available avail bk]> (books s) →
  borrowings s' = <[bid := b']> (borrowings s) →
  (∀ j w, verifications s' !! j = Some w → open_return_code w →
          verifications s !! j = Some w ∧ borrowing_id w ≠ bid) →
  consistent s'.
Proof.
  intros [Hacc Hlive Hdist] Hb Hbk Hsame Hpos Hmove Hbooks Hbs Hvs. split.
  - intros j bj Hj. rewrite Hbooks in Hj. rewrite Hbs, (loans_insert _ _ b) by done.
    destruct (decide (j = b_book_id b)) as [->|Hne].
    + rewrite list_lookup_insert_eq in Hj by by eapply lookup_lt_Some.
      simplify_eq/=. rewrite !holds_copy_of_same by done.
      destruct (Hacc _ _ Hbk). lia.
    + rewrite list_lookup_insert_ne in Hj by done.
      rewrite !holds_copy_of_other by congruence.
      destruct (Hacc _ _ Hj). lia.
  - intros j w Hj Hopen. destruct (Hvs j w Hj Hopen) as [Hj' Hne].
    destruct (Hlive j w Hj' Hopen) as (b1 & Hb1 & Hst1). exists b1.
    by rewrite Hbs, list_lookup_insert_ne.
  - intros j1 j2 w1 w2 Hj1 Hj2 Hw1 Hw2.
    destruct (Hvs j1 w1 Hj1 Hw1) as [Hj1' _].
    destruct (Hvs j2 w2 Hj2 Hw2) as [Hj2' _]. eauto.
Qed.

Lemma commit_and_flash_state s t b : (commit_and_flash s t b).1 = s.
Proof. unfold commit_and_flash. by destruct (books s !! b_book_id b). Qed.

Lemma verify_consistent s u fc now :
  consistent s → consistent (verify_transaction_code s u fc now).1.
Proof.
  intros Hs. unfold verify_transaction_code.
  destruct (decide _); [done|].
  destruct (negb _); [done|].
  destruct (find_verification _ _ _) as [[i v]|] eqn:Hfind; [|done].
  apply list_find_Some in Hfind as (Hi & _ & _).
  destruct (is_verified v) eqn:Hver; [done|].
  destruct (is_expired v now); [done|].
  unfold finalize. simpl.
  destruct (borrowings s !! borrowing_id v) as [b|] eqn:Hb; [|done].
  assert (Hold : ∀ j w, <[i := set_verified now v]> (verifications s) !! j = Some w →
                        open_return_code w → j ≠ i ∧ verifications s !! j = Some w)
    by (intros j w; by apply open_code_marked).
  destruct (ttype v) eqn:Ht.
  - destruct (awaits_confirmation (status b)) eqn:Hst.
    + destruct (books s !! b_book_id b) as [bk|] eqn:Hbk; [|done].
      destruct (available_copies bk <=? 0) eqn:Hav.
      { by eapply (consistent_marked s _ i v now). }
      apply Z.leb_gt in Hav. rewrite commit_and_flash_state.
      eapply (consistent_transfer s _ (borrowing_id v) b
                (set_borrow_date now (set_status Borrowed b)) bk
                (available_copies bk - 1)); try done.
      * lia.
      * simpl. destruct (status b); simpl in *; try done; lia.
      * simpl. intros j w Hj Hopen. destruct (Hold j w Hj Hopen) as [_ Hj'].
        split; [done|]. intros E.
        destruct Hs as [_ Hlive _].
        destruct (Hlive j w Hj' Hopen) as (b1 & Hb1 & Hst1).
        rewrite E in Hb1. simplify_eq. by rewrite Hst1 in Hst.
    + rewrite commit_and_flash_state. by eapply (consistent_marked s _ i v now).
  - destruct (books s !! b_book_id b) as [bk|] eqn:Hbk; [|done].
    rewrite commit_and_flash_state.
    assert (Hopen_v : open_return_code v) by done.
    pose proof Hs as [_ Hlive Hdist].
    destruct (Hlive i v Hi Hopen_v) as (b0 & Hb0 & Hst0). simplify_eq.
    eapply (consistent_transfer s _ (borrowing_id v) b
              (set_status Returned
                 (set_fine_amount (calculate_fine (set_return_date now b) now)
                    (set_return_date now b))) bk
              (available_copies bk + 1)); try done.
    * destruct (copies_accounted s Hs _ _ Hbk). lia.
    * simpl. rewrite Hst0. simpl. lia.
    * by destruct (next_reservation _ _) as [[??]|].
    * by destruct (next_reservation _ _) as [[??]|].
    * intros j w Hj Hopen.
      assert (Hj0 : <[i := set_verified now v]> (verifications s) !! j = Some w)
        by by destruct (next_reservation _ _) as [[??]|].
      destruct (Hold j w Hj0 Hopen) as [Hne Hj']. split; [done|].
      intros E. apply Hne. symmetry. by eapply (Hdist i j v w).
  - destruct (can_renew b now); [|rewrite commit_and_flash_state;
                                   by eapply (consistent_marked s _ i v now)].
    destruct (renew b now) as [b'|] eqn:Hrenew;
      rewrite commit_and_flash_state; [|by eapply (consistent_marked s _ i v now)].
    eapply (consistent_replace_borrowing s _ (borrowing_id v) b b'); try done.
    + by eapply (renew_keeps_loan b now b' 0%nat).
    + intros k. by eapply renew_keeps_loan.
    + simpl. intros j w Hj Hopen. by destruct (Hold j w Hj Hopen).
Qed.
Lemma handle_consistent cb gtf s now req :
  consistent s → consistent (handle cb gtf s now req).1.
Proof.
  destruct req; simpl;
    auto using borrow_consistent, return_book_consistent, renew_book_consistent,
               verify_consistent.
Qed.

Lemma run_consistent cb gtf reqs : ∀ s,
  consistent s → consistent (run cb gtf s reqs).
Proof.
  induction reqs as [|[now req] reqs IH]; intros s Hs; simpl; [done|].
  apply IH. by apply handle_consistent.
Qed.

(** A library in which nothing is out and no code is open is consistent as
    soon as its books satisfy the invariant. *)
Lemma settled_library_consistent s :
  copies_invariant s → borrowings s = [] → verifications s = [] → consistent s.
Proof.
  intros Hinv Hbs Hvs. split; rewrite ?Hbs, ?Hvs; simpl.
  - intros k bk Hk. destruct (Hinv k bk Hk). lia.
  - intros i v Hi. by rewrite lookup_nil in Hi.
  - intros i j v w Hi. by rewrite lookup_nil in Hi.
Qed.

(** The lower bound alone needs no accounting: the only decrement is guarded
    by [available_copies > 0]. *)
Lemma handle_keeps_copies_nonnegative cb gtf s now req :
  (∀ k bk, books s !! k = Some bk → 0 <= available_copies bk) →
  ∀ k bk, books (handle cb gtf s now req).1 !! k = Some bk → 0 <= available_copies bk.
Proof.
  intros Hs k bk. destruct req as [u j c|u b c|u b c|u fc]; simpl.
  - rewrite borrow_books. eauto.
  - rewrite return_book_books. eauto.
  - rewrite renew_book_books. eauto.
  - destruct (verify_books s u fc now)
      as [E|[(j & bj & Hj & E & Hpos & _)|(j & bj & Hj & E & _)]];
      simpl in E; rewrite E; [eauto|..];
      (destruct (decide (j = k)) as [->|Hne];
       [ rewrite list_lookup_insert_eq by (by eapply lookup_lt_Some);
         intros [= <-]; simpl; specialize (Hs _ _ Hj); lia
       | rewrite list_lookup_insert_ne by done; eauto ]).
Qed.

(** C1 (as amended).  From a consistent state, every sequence of workflow
    requests (borrow initiation, return initiation, renewal, verification of
    any code) leads to a consistent state, in which every book satisfies
    [0 <= available_copies <= total_copies]. *)
Theorem copies_invariant_preserved cb gtf s reqs :
  consistent s →
  copies_invariant s ∧
  consistent (run cb gtf s reqs) ∧
  copies_invariant (run cb gtf s reqs).
Proof.
  intros Hs. split; [by apply consistent_copies_invariant|].
  split; [|apply consistent_copies_invariant]; by apply run_consistent.
Qed.

Lemma one_copy_library_invariant : copies_invariant one_copy_library.
Proof. intros [|k] bk Hk; simplify_eq/=. lia. Qed.

Lemma copies_invariant_preserved_witness :
  copies_invariant (run always_allowed no_fine one_copy_library borrow_and_return) ∧
  books (run always_allowed no_fine one_copy_library borrow_and_return)
    = [mkBook "Dune" 1 1] ∧
  status <$> borrowings (run always_allowed no_fine one_copy_library borrow_and_return)
    = [Returned].
Proof.
  split; [|split; vm_compute; reflexivity].
  apply (copies_invariant_preserved always_allowed no_fine one_copy_library
           borrow_and_return).
  apply settled_library_consistent;
    [exact one_copy_library_invariant | reflexivity | reflexivity].
Defined.

(** C1 (as stated) fails: a state can satisfy the invariant and hold an open
    return code for a book whose copies are all on the shelf; confirming that
    code puts a second copy on a shelf of one. *)
Lemma return_confirmation_overfills_shelf :
  copies_invariant (library_with 1 PendingReturn TReturn) ∧
  ¬ copies_invariant
      (handle always_allowed no_fine (library_with 1 PendingReturn TReturn)
              (at_day 15) (VerifyRequest 7 "AB12CD")).1.
Proof.
  split.
  - intros [|k] bk Hk; simplify_eq/=. lia.
  - intros Hinv. destruct (Hinv 0%nat (mkBook "Dune" 1 2)) as [_ Hle].
    + vm_compute. reflexivity.
    + simpl in Hle. lia.
Qed.

(** ** The bound on renewals *)

Lemma renew_bounded b now b' :
  renew b now = Some b' → renewed_count b' <= max_renewals.
Proof.
  unfold renew, can_renew. destruct (negb _); simpl; [|done].
  destruct (renewed_count b <? max_renewals) eqn:Hlt; [|done].
  apply Z.ltb_lt in Hlt. intros [= <-]. simpl. lia.
Qed.

Lemma bounded_insert (bs : list Borrowing) i b' :
  (∀ j b, bs !! j = Some b → renewed_count b <= max_renewals) →
  renewed_count b' <= max_renewals →
  ∀ j b, <[i := b']> bs !! j = Some b → renewed_count b <= max_renewals.
Proof.
  intros Hbs Hb' j b Hj.
  apply list_lookup_insert_Some in Hj as [(_ & <- & _)|[_ Hj]]; eauto.
Qed.

(** The bound on [renewed_count] is kept by every request. *)
Lemma handle_renewals_bounded cb gtf s now req :
  renewals_bounded s → renewals_bounded (handle cb gtf s now req).1.
Proof.
  intros Hs. unfold renewals_bounded in *.
  destruct req as [u k c|u bid c|u bid c|u fc]; simpl.
  - unfold borrow. repeat case_match; simpl; eauto.
    all: intros ? ? [[_ Hj]|[_ <-]]%lookup_snoc_Some;
      [eauto|simpl; unfold max_renewals; lia].
  - unfold return_book. destruct (borrowed_by s bid u) as [b|] eqn:Hby; [|done].
    apply borrowed_by_inv in Hby as (Hb & _). simpl.
    apply bounded_insert; [done|]. simpl. eauto.
  - unfold renew_book. destruct (borrowed_by s bid u) as [b|] eqn:Hby; [|done].
    destruct (renew b now) as [b'|] eqn:Hrenew; [|by repeat case_match].
    apply renew_bounded in Hrenew.
    destruct (books _ !! _); simpl; by apply bounded_insert.
  - unfold verify_transaction_code.
    destruct (decide _); [done|].
    destruct (negb _); [done|].
    destruct (find_verification _ _ _) as [[i v]|]; [|done].
    destruct (is_verified v); [done|].
    destruct (is_expired v now); [done|].
    unfold finalize. simpl.
    destruct (borrowings s !! borrowing_id v) as [b|] eqn:Hb; [|done].
    destruct (ttype v).
    + destruct (awaits_confirmation (status b)); [|by rewrite commit_and_flash_state].
      destruct (books s !! b_book_id b); [|done].
      destruct (_ <=? _); [done|]. rewrite commit_and_flash_state. simpl.
      apply bounded_insert; [done|]. simpl. eauto.
    + destruct (books s !! b_book_id b); [|done].
      rewrite commit_and_flash_state.
      intros j br Hj.
      assert (Hj0 : <[borrowing_id v :=
                 set_status Returned
                   (set_fine_amount (calculate_fine (set_return_date now b) now)
                      (set_return_date now b))]> (borrowings s) !! j = Some br)
        by by destruct (next_reservation _ _) as [[??]|].
      clear Hj. revert j br Hj0. apply bounded_insert; [done|]. simpl. eauto.
    + destruct (can_renew b now); [|by rewrite commit_and_flash_state].
      destruct (renew b now) as [b'|] eqn:Hrenew;
        rewrite commit_and_flash_state; [|done].
      apply renew_bounded in Hrenew. simpl. by apply bounded_insert.
Qed.

(** ** The properties at work on sample libraries *)

Lemma verify_finalizes_at_most_once_witness :
  ascii_only " ab12cd " = true ∧
  String.length (upper (strip " ab12cd ")) = 6%nat ∧
  let s1 := (verify_transaction_code (library_with 1 Pending TBorrow) 7 " ab12cd "
               (at_day 15)).1 in
  verify_transaction_code s1 7 " ab12cd " (at_day 15) = (s1, Flashed FlashAlreadyVerified).
Proof.
  split; [reflexivity|]. split; [reflexivity|].
  destruct (verify_finalizes_at_most_once (library_with 1 Pending TBorrow) 7
              " ab12cd " (at_day 15) (at_day 15) eq_refl eq_refl) as (_ & Honce & _).
  apply Honce. vm_compute. discriminate.
Defined.

Lemma return_verified_promotes_oldest_witness :
  let s1 := (verify_transaction_code (library_with 0 PendingReturn TReturn) 7 "AB12CD"
               (at_day 15)).1 in
  borrowings s1 =
    [mkBorrowing 7 0 Returned None (at_day 10) (Some (at_day 15)) 0 25 false] ∧
  books s1 = [mkBook "Dune" 1 1] ∧
  reservations s1 !! 1%nat =
    Some (mkReservation 9 0 RPending (at_day 3) (Some (at_day 18)) true).
Proof.
  intros s1.
  destruct (return_verified_promotes_oldest (library_with 0 PendingReturn TReturn) 7
              "AB12CD" (at_day 15) 0 (sample_code TReturn)
              (sample_borrowing PendingReturn) (sample_book 0))
    as (_ & Hb & Hbk & Hres);
    [split; reflexivity | reflexivity | reflexivity | reflexivity | reflexivity
    | reflexivity | ].
  fold s1 in Hb, Hbk, Hres. clearbody s1.
  rewrite Hb, Hbk. split; [reflexivity|]. split; [reflexivity|].
  assert (Hnext : next_reservation (library_with 0 PendingReturn TReturn)
                    (b_book_id (sample_borrowing PendingReturn))
                  = Some (1%nat, mkReservation 9 0 RPending (at_day 3) None false))
    by (vm_compute; reflexivity).
  rewrite Hnext in Hres. destruct Hres as (_ & _ & _ & _ & Hres & _).
  rewrite Hres. reflexivity.
Defined.
Lemma borrow_decrements_on_verification_witness :
  let s1 := (borrow always_allowed no_fine one_copy_library 7 0 (at_day 1) "AB12CD").1 in
  let s2 := (verify_transaction_code s1 7 "AB12CD" (at_day 1)).1 in
  (books s1 = [mkBook "Dune" 1 1] ∧ status <$> borrowings s1 = [Pending]) ∧
  (books s2 = [mkBook "Dune" 1 0] ∧ status <$> borrowings s2 = [Borrowed]).
Proof.
  intros s1 s2.
  destruct (borrow_decrements_on_verification always_allowed no_fine one_copy_library
              7 0 (at_day 1) "AB12CD" (sample_book 1))
    as ((_ & Hbs & Hbk & _) & Hverify & _);
    [reflexivity | reflexivity | reflexivity | reflexivity | ].
  fold s1 in Hbs, Hbk. split.
  - rewrite Hbs, Hbk. split; reflexivity.
  - pose proof (Hverify s1 7%nat "AB12CD" (at_day 1) 0%nat
                  (mkVerification 7 0 TBorrow "AB12CD" (at_day 1)
                     (at_day 1 + 24 * usec_per_hour) false None)
                  (mkBorrowing 7 0 Pending None (at_day 1 + 14 * usec_per_day) None 0 0
                     false)
                  (sample_book 1)
                  (conj eq_refl eq_refl) eq_refl eq_refl eq_refl eq_refl eq_refl eq_refl
                  eq_refl) as Hv.
    cbv zeta in Hv. destruct Hv as (_ & Hbk2 & Hbs2).
    fold s2 in Hbk2, Hbs2. rewrite Hbk2, Hbs2. split; reflexivity.
Defined.

Lemma exhausted_book_consumes_code_witness :
  let s1 := (verify_transaction_code (library_with 0 Pending TBorrow) 7 "AB12CD"
               (at_day 15)).1 in
  (verify_transaction_code (library_with 0 Pending TBorrow) 7 "AB12CD" (at_day 15)).2
    = Flashed FlashNoLongerAvailable ∧
  books s1 = [mkBook "Dune" 1 0] ∧
  borrowings s1 = [sample_borrowing Pending] ∧
  verify_transaction_code s1 7 "AB12CD" (at_day 15) = (s1, Flashed FlashAlreadyVerified).
Proof.
  intros s1.
  destruct (exhausted_book_consumes_code (library_with 0 Pending TBorrow) 7 "AB12CD"
              (at_day 15) (at_day 15) 0 (sample_code TBorrow) (sample_borrowing Pending)
              (sample_book 0))
    as (Hr & _ & Hbk & Hbs & _ & _ & _ & Hagain);
    [split; reflexivity | reflexivity | reflexivity | reflexivity | reflexivity
    | reflexivity | reflexivity | simpl; lia | ].
  fold s1 in Hbk, Hbs, Hagain. rewrite Hbk, Hbs. split_and!; done.
Defined.

Lemma borrow_rejection_mutates_nothing_witness :
  borrow always_allowed no_fine (library_with 0 Borrowed TBorrow) 8 0 (at_day 15) "ZZ99ZZ"
  = (library_with 0 Borrowed TBorrow, Flashed FlashNotAvailable).
Proof.
  destruct (borrow_rejection_mutates_nothing always_allowed no_fine
              (library_with 0 Borrowed TBorrow) 8 0 (at_day 15) "ZZ99ZZ" (sample_book 0))
    as (Hs & Hr & _); [reflexivity | left; reflexivity | ].
  rewrite (surjective_pairing (borrow _ _ _ _ _ _ _)), Hs, Hr; reflexivity.
Defined.

Lemma renewal_applies_at_request_witness :
  let s1 := (renew_book (library_with 0 Borrowed TBorrow) 7 0 (at_day 9) "REN001").1 in
  borrowings s1 = [mkBorrowing 7 0 Borrowed None (at_day 24) None 1 0 false] ∧
  (is_verified <$> last (verifications s1)) = Some false.
Proof.
  intros s1.
  destruct (renewal_applies_at_request (library_with 0 Borrowed TBorrow) 7 0 (at_day 9)
              "REN001" (sample_borrowing Borrowed) (sample_book 0))
    as (_ & Hrenewed);
    [reflexivity | reflexivity | reflexivity | reflexivity | simpl; lia | ].
  destruct Hrenewed as (_ & Hbs & _ & Hvs); [simpl; lia | vm_compute; discriminate | ].
  fold s1 in Hbs, Hvs. rewrite Hbs, Hvs. split; reflexivity.
Defined.

Lemma borrow_request_fulfils_reservation_witness :
  let s1 := (borrow always_allowed no_fine (library_with 1 Returned TBorrow) 7 0
               (at_day 15) "NEW001").1 in
  reservations s1 !! 2%nat = Some (mkReservation 7 0 RFulfilled (at_day 6) None false) ∧
  ∃ r', reservations
          (run always_allowed no_fine s1 [(at_day 15, VerifyRequest 7 "NEW001")]) !! 2%nat
        = Some r' ∧ r_status r' = RFulfilled.
Proof.
  intros s1.
  destruct (borrow_request_fulfils_reservation always_allowed no_fine
              (library_with 1 Returned TBorrow) 7 0 (at_day 15) "NEW001" (sample_book 1)
              2 (mkReservation 7 0 RPending (at_day 6) None false))
    as (_ & Hres & _ & _ & Hlater);
    [reflexivity | reflexivity | reflexivity | reflexivity | reflexivity | ].
  fold s1 in Hres, Hlater. rewrite Hres. split; [reflexivity|]. apply Hlater.
Defined.

Lemma settled_borrow_code_only_marks_witness :
  verify_transaction_code (library_with 0 Borrowed TBorrow) 7 "AB12CD" (at_day 15)
  = (mark_verified (library_with 0 Borrowed TBorrow) 0 (sample_code TBorrow) (at_day 15),
     Flashed (FlashVerified TBorrow "Dune")).
Proof.
  destruct (settled_borrow_code_only_marks (library_with 0 Borrowed TBorrow) 7 "AB12CD"
              (at_day 15) 0 (sample_code TBorrow) (sample_borrowing Borrowed)
              (sample_book 0))
    as (Hr & _);
    [split; reflexivity | reflexivity | reflexivity | reflexivity | reflexivity
    | discriminate | discriminate | reflexivity | ].
  rewrite (surjective_pairing (verify_transaction_code _ _ _ _)), Hr. reflexivity.
Defined.

(** C10 (as stated) fails for the status [pending_verification], which is not
    [pending] and which the guard of the borrow branch accepts all the same:
    the code is finalized like a pending one. *)
Lemma pending_verification_code_finalizes :
  let s := library_with 1 PendingVerification TBorrow in
  let s1 := (verify_transaction_code s 7 "AB12CD" (at_day 15)).1 in
  (presents s 7 "AB12CD" 0 (sample_code TBorrow) ∧
   is_verified (sample_code TBorrow) = false ∧
   is_expired (sample_code TBorrow) (at_day 15) = false ∧
   ttype (sample_code TBorrow) = TBorrow ∧
   borrowings s !! borrowing_id (sample_code TBorrow)
     = Some (sample_borrowing PendingVerification) ∧
   status (sample_borrowing PendingVerification) ≠ Pending) ∧
  (verify_transaction_code s 7 "AB12CD" (at_day 15)).2
    = Flashed (FlashVerified TBorrow "Dune") ∧
  books s = [mkBook "Dune" 1 1] ∧ books s1 = [mkBook "Dune" 1 0] ∧
  borrowings s1 = [mkBorrowing 7 0 Borrowed (Some (at_day 15)) (at_day 10) None 0 0 false] ∧
  notifications s = [] ∧
  notifications s1 = [mkNotification 7 "Book Borrowed: Dune" NBorrow (Some 0%nat)].
Proof.
  simpl. split_and!; try reflexivity; try discriminate. split; reflexivity.
Qed.

(** * Further properties *)

(** ** How the tables evolve *)

Lemma borrow_verifications cb gtf s u k now code :
  ∃ ext, verifications (borrow cb gtf s u k now code).1 = verifications s ++ ext.
Proof.
  unfold borrow. repeat case_match; simpl;
    try (exists []; by rewrite app_nil_r); by eexists [_].
Qed.

Lemma return_book_verifications s u bid now code :
  ∃ ext, verifications (return_book s u bid now code).1 = verifications s ++ ext.
Proof.
  unfold return_book. repeat case_match; simpl;
    try (exists []; by rewrite app_nil_r); by eexists [_].
Qed.

Lemma renew_book_verifications s u bid now code :
  ∃ ext, verifications (renew_book s u bid now code).1 = verifications s ++ ext.
Proof.
  unfold renew_book. repeat case_match; simpl;
    try (exists []; by rewrite app_nil_r); by eexists [_].
Qed.

Lemma pay_all_fines_verifications s u now :
  verifications (pay_all_fines s u now).1 = verifications s.
Proof. reflexivity. Qed.

(** What one visit, served at time [t], can do to the code of row [i]: the
    row stays, with its reader, code and expiry; a verified code stays
    verified, and a code that has expired at [t] is left as it is. *)
Lemma serve_keeps_code cb gtf s t vis i v :
  verifications s !! i = Some v →
  ∃ v', verifications (serve cb gtf s t vis) !! i = Some v' ∧
        v_user_id v' = v_user_id v ∧ verification_code v' = verification_code v ∧
        expires_at v' = expires_at v ∧
        (is_verified v = true → is_verified v' = true) ∧
        (expires_at v < t → is_verified v' = is_verified v).
Proof.
  intros Hi.
  assert (Hext : ∀ s', (∃ ext, verifications s' = verifications s ++ ext) →
    ∃ v', verifications s' !! i = Some v' ∧
          v_user_id v' = v_user_id v ∧ verification_code v' = verification_code v ∧
          expires_at v' = expires_at v ∧
          (is_verified v = true → is_verified v' = true) ∧
          (expires_at v < t → is_verified v' = is_verified v)).
  { intros s' [ext E]. exists v. rewrite E. split; [by apply lookup_app_l_Some|done]. }
  destruct vis as [[u k c|u b c|u b c|u fc]|u k|u k|u f|u]; simpl.
  - apply Hext, borrow_verifications.
  - apply Hext, return_book_verifications.
  - apply Hext, renew_book_verifications.
  - destruct (verify_rejects_or_marks s u fc t)
      as [E|(j & w & [_ Hfind] & Hver & Hexp & E)]; simpl in E.
    + rewrite E. apply Hext. exists []. by rewrite app_nil_r.
    + rewrite E. simpl. apply list_find_Some in Hfind as (Hj & _ & _).
      destruct (decide (j = i)) as [->|Hne].
      * simplify_eq. exists (set_verified t v).
        rewrite list_lookup_insert_eq by by eapply lookup_lt_Some.
        split_and!; try done. intros Hlt. unfold is_expired in Hexp.
        apply Z.ltb_ge in Hexp. lia.
      * exists v. by rewrite list_lookup_insert_ne.
  - apply Hext. exists []. rewrite app_nil_r.
    unfold reserve. by repeat case_match.
  - apply Hext. exists []. rewrite app_nil_r.
    unfold cancel_reservation. by repeat case_match.
  - apply Hext. exists []. rewrite app_nil_r.
    unfold pay_fine. by repeat case_match.
  - apply Hext. exists []. by rewrite app_nil_r.
Qed.

Lemma serve_all_keeps_code cb gtf visits : ∀ s i v,
  verifications s !! i = Some v →
  ∃ v', verifications (serve_all cb gtf s visits) !! i = Some v' ∧
        v_user_id v' = v_user_id v ∧ verification_code v' = verification_code v ∧
        expires_at v' = expires_at v ∧
        (is_verified v = true → is_verified v' = true) ∧
        (∀ now, Forall (λ tv, now <= tv.1) visits → expires_at v < now →
                is_verified v' = is_verified v).
Proof.
  induction visits as [|[t vis] visits IH]; intros s i v Hi; simpl.
  { exists v. by split_and!. }
  destruct (serve_keeps_code cb gtf s t vis i v Hi)
    as (v1 & Hi1 & Hu1 & Hc1 & He1 & Hv1 & Hx1).
  destruct (IH _ i v1 Hi1) as (v2 & Hi2 & Hu2 & Hc2 & He2 & Hv2 & Hx2).
  exists v2. split_and!; try congruence; [by auto|].
  intros now Hall Hlt. apply Forall_cons in Hall as [Ht Hall]. simpl in Ht.
  rewrite (Hx2 now Hall) by lia. apply Hx1. lia.
Qed.

(** The row that the lookup of a reader's code finds stays the row it
    finds. *)
Lemma serve_all_keeps_lookup cb gtf visits s u code i v :
  find_verification s u code = Some (i, v) →
  ∃ v', find_verification (serve_all cb gtf s visits) u code = Some (i, v') ∧
        expires_at v' = expires_at v ∧
        (is_verified v = true → is_verified v' = true) ∧
        (∀ now, Forall (λ tv, now <= tv.1) visits → expires_at v < now →
                is_verified v' = is_verified v).
Proof.
  intros Hfind. unfold find_verification in *.
  apply list_find_Some in Hfind as (Hi & [Hu Hc] & Hleast).
  destruct (serve_all_keeps_code cb gtf visits s i v Hi)
    as (v' & Hi' & Hu' & Hc' & He' & Hv' & Hx').
  exists v'. split_and!; try done.
  apply list_find_Some. split_and!; try congruence.
  intros j w' Hj Hlt [Huw Hcw].
  assert (is_Some (verifications s !! j)) as [w Hw].
  { apply lookup_lt_is_Some. apply lookup_lt_Some in Hi. lia. }
  destruct (serve_all_keeps_code cb gtf visits s j w Hw)
    as (w2 & Hj2 & Hu2 & Hc2 & _).
  simplify_eq. apply (Hleast j w Hw Hlt). split; congruence.
Qed.

(** Once the record that a reader's code finds is verified, presenting the code
    answers "already verified" and changes nothing, whatever visits were
    served in between. *)
Theorem consumed_code_stays_consumed cb gtf s u fc i v visits now :
  presents s u fc i v → is_verified v = true →
  verify_transaction_code (serve_all cb gtf s visits) u fc now
  = (serve_all cb gtf s visits, Flashed FlashAlreadyVerified).
Proof.
  intros [Hlen Hfind] Hver.
  destruct (serve_all_keeps_lookup cb gtf visits s u _ i v Hfind)
    as (v' & Hfind' & _ & Hv' & _).
  rewrite verify_six, Hfind' by done. by rewrite Hv'.
Qed.

(** An unverified code that has expired is refused as expired from then on:
    no visit served after its expiry marks it, and presenting it later answers
    "expired" and changes nothing. *)
Theorem expired_code_stays_refused cb gtf s u fc i v visits now now' :
  presents s u fc i v → is_verified v = false →
  expires_at v < now →
  Forall (λ tv, now <= tv.1) visits → now <= now' →
  verify_transaction_code (serve_all cb gtf s visits) u fc now'
  = (serve_all cb gtf s visits, Flashed FlashExpired).
Proof.
  intros [Hlen Hfind] Hver Hexp Hall Hle.
  destruct (serve_all_keeps_lookup cb gtf visits s u _ i v Hfind)
    as (v' & Hfind' & He' & _ & Hx').
  rewrite verify_six, Hfind' by done.
  rewrite (Hx' now Hall Hexp), Hver. unfold is_expired.
  assert (Hlt : (expires_at v' <? now') = true) by (apply Z.ltb_lt; lia).
  by rewrite Hlt.
Qed.
(** *** Fines *)

Lemma pay_loop u now bs : ∀ pre acc,
  foldl (pay_one now) (pre ++ bs, acc)
        (fe_id <$> outstanding_fines_from (length pre) bs u now)
  = (pre ++ (settle_fine u now <$> bs),
     acc + foldr (λ e a, fe_amount e + a) 0
                 (outstanding_fines_from (length pre) bs u now)).
Proof.
  induction bs as [|b bs IH]; intros pre acc; simpl.
  { f_equal. lia. }
  assert (Hskip : settle_fine u now b = b →
    foldl (pay_one now) (pre ++ b :: bs, acc)
          (fe_id <$> outstanding_fines_from (S (length pre)) bs u now)
    = (pre ++ b :: (settle_fine u now <$> bs),
       acc + foldr (λ e a, fe_amount e + a) 0
                   (outstanding_fines_from (S (length pre)) bs u now))).
  { intros _. specialize (IH (pre ++ [b]) acc).
    rewrite length_app, Nat.add_1_r, <- !app_assoc in IH. exact IH. }
  unfold settle_fine at 1.
  destruct (decide (b_user_id b = u)) as [Hu|Hu]; [|by apply Hskip; unfold settle_fine;
                                                     rewrite decide_False].
  destruct (fine_outstanding b now) eqn:Hout;
    [|by apply Hskip; unfold settle_fine; rewrite decide_True, Hout].
  simpl. unfold pay_one at 2. simpl. rewrite list_lookup_middle by done.
  replace (length pre) with (length pre + 0)%nat at 1 by lia.
  rewrite insert_app_r. simpl.
  specialize (IH (pre ++ [set_fine_paid true (set_fine_amount (overdue_fine b now) b)])
                 (acc + overdue_fine b now)).
  rewrite length_app, Nat.add_1_r, <- !app_assoc in IH. simpl in IH.
  etrans; [apply IH|]. f_equal. lia.
Qed.

Lemma pay_all_fines_state s u now :
  pay_all_fines s u now
  = (with_borrowings (settle_fine u now <$> borrowings s) s,
     Noticed (if 0 <? (fines s u now).2 then NoticeAllFinesPaid (fines s u now).2
              else NoticeNoOutstandingFines)).
Proof.
  unfold pay_all_fines, fines. simpl.
  pose proof (pay_loop u now (borrowings s) [] 0) as H. simpl in H.
  rewrite H. reflexivity.
Qed.

Lemma settle_fine_keeps u now b :
  b_user_id (settle_fine u now b) = b_user_id b ∧
  b_book_id (settle_fine u now b) = b_book_id b ∧
  status (settle_fine u now b) = status b ∧
  due_date (settle_fine u now b) = due_date b ∧
  return_date (settle_fine u now b) = return_date b ∧
  renewed_count (settle_fine u now b) = renewed_count b.
Proof. unfold settle_fine. by repeat case_match. Qed.

Lemma outstanding_fines_from_ext u now (f : Borrowing → Borrowing) bs :
  (∀ b, b_user_id (f b) = b_user_id b ∧ due_date (f b) = due_date b ∧
        return_date (f b) = return_date b) →
  ∀ i, outstanding_fines_from i (f <$> bs) u now = outstanding_fines_from i bs u now.
Proof.
  intros Hf. induction bs as [|b bs IH]; intros i; simpl; [done|].
  destruct (Hf b) as (Hu & Hd & Hr). rewrite IH, Hu.
  unfold fine_outstanding, days_overdue, overdue_fine, days_overdue.
  by rewrite Hd, Hr.
Qed.

Lemma outstanding_amounts_nonneg bs u now : ∀ i,
  0 <= foldr (λ e a, fe_amount e + a) 0 (outstanding_fines_from i bs u now).
Proof.
  induction bs as [|b bs IH]; intros i; simpl; [done|].
  specialize (IH (S i)).
  destruct (decide _); [|done]. destruct (fine_outstanding b now) eqn:Hout; [|done].
  simpl. unfold fine_outstanding in Hout. destruct (return_date b); [done|].
  apply Z.ltb_lt in Hout.
  assert (date (due_date b) <= date now) by (apply date_mono; lia).
  unfold overdue_fine, days_overdue, days_between. lia.
Qed.

Lemma paid_fines_of_nonneg bs u : 0 <= paid_fines_of bs u.
Proof.
  induction bs as [|b bs IH]; simpl; [done|].
  destruct (decide _); [|lia].
  destruct (0 <? fine_amount b) eqn:Hpos; simpl; [|lia].
  apply Z.ltb_lt in Hpos. destruct (fine_paid b); lia.
Qed.

Lemma settle_fine_cases u now b :
  (b_user_id b = u ∧ fine_outstanding b now = true ∧
   settle_fine u now b = set_fine_paid true (set_fine_amount (overdue_fine b now) b)) ∨
  ((b_user_id b ≠ u ∨ fine_outstanding b now = false) ∧ settle_fine u now b = b).
Proof.
  unfold settle_fine. destruct (decide _); [|by right; split; [left|]].
  destruct (fine_outstanding b now); [by left|by right; split; [right|]].
Qed.

Lemma paid_after_settling bs u now : ∀ i,
  foldr (λ e a, fe_amount e + a) 0 (outstanding_fines_from i bs u now)
  <= paid_fines_of (settle_fine u now <$> bs) u.
Proof.
  induction bs as [|b bs IH]; intros i; simpl; [done|].
  specialize (IH (S i)).
  change (list_fmap Borrowing Borrowing (settle_fine u now) bs)
    with (settle_fine u now <$> bs).
  destruct (settle_fine_cases u now b) as [(Hu & Hout & E)|[Hnot E]]; rewrite E.
  - rewrite decide_True, Hout by done. simpl. rewrite decide_True by done.
    unfold fine_outstanding in Hout. destruct (return_date b); [done|].
    apply Z.ltb_lt in Hout.
    assert (date (due_date b) <= date now) by (apply date_mono; lia).
    unfold overdue_fine, days_overdue, days_between in *.
    destruct (0 <? (date now - date (due_date b)) * 5) eqn:Hpos; simpl; [lia|].
    apply Z.ltb_ge in Hpos. lia.
  - assert (0 <= (if decide (b_user_id b = u)
                  then if (0 <? fine_amount b) && fine_paid b then fine_amount b else 0
                  else 0)).
    { destruct (decide _); [|done].
      destruct (0 <? fine_amount b) eqn:Hpos; simpl; [|done].
      apply Z.ltb_lt in Hpos. destruct (fine_paid b); lia. }
    destruct (decide (b_user_id b = u)) as [Hu|Hu]; [|lia].
    destruct Hnot as [?|Hout]; [done|]. rewrite Hout. lia.
Qed.

(** [pay_all_fines] charges what [fines] lists: its total is the total of the
    fines page, every listed borrowing gets the listed amount and is marked
    paid, every other borrowing and every other table stays as it was, and
    the message tells the total or that nothing is outstanding. *)
Theorem pay_all_fines_charges_the_listed_total s u now :
  let s1 := (pay_all_fines s u now).1 in
  (pay_all_fines s u now).2
    = Noticed (if 0 <? (fines s u now).2 then NoticeAllFinesPaid (fines s u now).2
               else NoticeNoOutstandingFines) ∧
  (∀ e, e ∈ (fines s u now).1 →
     ∃ b, borrowings s !! fe_id e = Some b ∧
          borrowings s1 !! fe_id e
          = Some (mkBorrowing (b_user_id b) (b_book_id b) (status b) (borrow_date b)
                    (due_date b) (return_date b) (renewed_count b) (fe_amount e) true)) ∧
  (∀ i b, borrowings s !! i = Some b →
     b_user_id b ≠ u ∨ fine_outstanding b now = false →
     borrowings s1 !! i = Some b) ∧
  length (borrowings s1) = length (borrowings s) ∧
  books s1 = books s ∧ reservations s1 = reservations s ∧
  verifications s1 = verifications s ∧ notifications s1 = notifications s.
Proof.
  cbv zeta. rewrite pay_all_fines_state. simpl. split_and!; try done.
  - intros e He. unfold fines in He. simpl in He.
    apply outstanding_fines_from_spec in He as (b & _ & Hb & Hu & Hout & _ & Ha).
    rewrite Nat.sub_0_r in Hb. exists b. split; [done|].
    rewrite list_lookup_fmap, Hb. simpl. unfold settle_fine.
    rewrite decide_True, Hout, Ha by done. reflexivity.
  - intros i b Hb Hnot. rewrite list_lookup_fmap, Hb. simpl. unfold settle_fine.
    destruct (decide _) as [Hu|]; [|done].
    destruct Hnot as [?|Hout]; [done|]. by rewrite Hout.
  - by rewrite length_fmap.
Qed.

Lemma outstanding_fines_from_insert u now bs : ∀ j b1 b2 i,
  bs !! j = Some b1 →
  b_user_id b2 = b_user_id b1 → due_date b2 = due_date b1 →
  return_date b2 = return_date b1 →
  outstanding_fines_from i (<[j := b2]> bs) u now = outstanding_fines_from i bs u now.
Proof.
  induction bs as [|b0 bs IH]; intros [|j] b1 b2 i Hj Hu Hd Hr; simplify_eq/=.
  - unfold fine_outstanding, days_overdue, overdue_fine, days_overdue.
    by rewrite Hu, Hd, Hr.
  - by rewrite (IH j b1 b2).
Qed.

(** Paying does not clear a fine: right after [pay_all_fines] (or [pay_fine])
    the fines page lists the same outstanding fines with the same total, and
    the paid fines now cover that total as well, so that [all_time_fines] is at
    least twice the outstanding total. *)
Theorem paying_leaves_the_fine_outstanding s u now :
  let s1 := (pay_all_fines s u now).1 in
  fines s1 u now = fines s u now ∧
  0 <= (fines s u now).2 ∧
  (fines s u now).2 <= paid_fines s1 u ∧
  2 * (fines s u now).2 <= all_time_fines s1 u now ∧
  (∀ fid, fines (pay_fine s u fid now).1 u now = fines s u now).
Proof.
  cbv zeta. rewrite pay_all_fines_state. simpl.
  assert (E : fines (with_borrowings (settle_fine u now <$> borrowings s) s) u now
              = fines s u now).
  { unfold fines. simpl. rewrite outstanding_fines_from_ext; [done|].
    intros b. by destruct (settle_fine_keeps u now b) as (?&?&?&?&?&?). }
  pose proof (paid_after_settling (borrowings s) u now 0) as Hpaid.
  pose proof (outstanding_amounts_nonneg (borrowings s) u now 0) as Hpos.
  split_and!; try done.
  - unfold all_time_fines. rewrite E. unfold paid_fines, fines in *. simpl in *. lia.
  - intros fid. unfold pay_fine.
    destruct (borrowings s !! fid) as [b|] eqn:Hb; [|done].
    destruct (decide _); [|done]. destruct (fine_outstanding b now); [|done].
    unfold fines. simpl.
    by rewrite (outstanding_fines_from_insert u now (borrowings s) fid b).
Qed.
(** *** Borrowings *)

(** What a confirmation can do to the borrowings: nothing, or one row
    finalized as borrowed, as returned or as renewed. *)
Lemma verify_borrowings s u fc now :
  let s1 := (verify_transaction_code s u fc now).1 in
  borrowings s1 = borrowings s ∨
  ∃ j b b', borrowings s !! j = Some b ∧
            borrowings s1 = <[j := b']> (borrowings s) ∧
            ((awaits_confirmation (status b) = true ∧
              b' = set_borrow_date now (set_status Borrowed b)) ∨
             b' = set_status Returned
                    (set_fine_amount (calculate_fine b now) (set_return_date now b)) ∨
             renew b now = Some b').
Proof.
  simpl. unfold verify_transaction_code.
  destruct (decide _); [by left|].
  destruct (negb _); [by left|].
  destruct (find_verification _ _ _) as [[i v]|]; [|by left].
  destruct (is_verified v); [by left|].
  destruct (is_expired v now); [by left|].
  unfold finalize. simpl.
  destruct (borrowings s !! borrowing_id v) as [b|] eqn:Hb; [|by left].
  destruct (ttype v).
  - destruct (awaits_confirmation (status b)) eqn:Hst;
      [|rewrite commit_and_flash_state; by left].
    destruct (books s !! b_book_id b); [|by left].
    destruct (_ <=? _); [by left|]. rewrite commit_and_flash_state.
    right. exists (borrowing_id v), b, (set_borrow_date now (set_status Borrowed b)).
    split_and!; [done|done|by left].
  - destruct (books s !! b_book_id b); [|by left].
    rewrite commit_and_flash_state. right.
    exists (borrowing_id v), b,
      (set_status Returned
         (set_fine_amount (calculate_fine b now) (set_return_date now b))).
    split_and!; [done| |by right; left].
    by destruct (next_reservation _ _) as [[??]|].
  - destruct (can_renew b now); [|rewrite commit_and_flash_state; by left].
    destruct (renew b now) as [b'|] eqn:Hrenew;
      rewrite commit_and_flash_state; [|by left].
    right. exists (borrowing_id v), b, b'. split_and!; [done|done|by right; right].
Qed.

(** A borrowing and the row that takes its place: same reader, same book,
    the status not earlier in the life of a borrowing, the due date not
    earlier and the renewals not fewer. *)
Lemma serve_keeps_borrowing cb gtf s t vis i b :
  borrowings s !! i = Some b →
  ∃ b', borrowings (serve cb gtf s t vis) !! i = Some b' ∧
        b_user_id b' = b_user_id b ∧ b_book_id b' = b_book_id b ∧
        (status_rank (status b) ≤ status_rank (status b'))%nat ∧
        due_date b <= due_date b' ∧ renewed_count b <= renewed_count b'.
Proof.
  intros Hi.
  assert (Hsame : ∀ bs, bs = borrowings s →
    ∃ b', bs !! i = Some b' ∧
          b_user_id b' = b_user_id b ∧ b_book_id b' = b_book_id b ∧
          (status_rank (status b) ≤ status_rank (status b'))%nat ∧
          due_date b <= due_date b' ∧ renewed_count b <= renewed_count b').
  { intros bs ->. exists b. by split_and!. }
  assert (Hins : ∀ j b0 b1, borrowings s !! j = Some b0 →
    b_user_id b1 = b_user_id b0 → b_book_id b1 = b_book_id b0 →
    (status_rank (status b0) ≤ status_rank (status b1))%nat →
    due_date b0 <= due_date b1 → renewed_count b0 <= renewed_count b1 →
    ∃ b', <[j := b1]> (borrowings s) !! i = Some b' ∧
          b_user_id b' = b_user_id b ∧ b_book_id b' = b_book_id b ∧
          (status_rank (status b) ≤ status_rank (status b'))%nat ∧
          due_date b <= due_date b' ∧ renewed_count b <= renewed_count b').
  { intros j b0 b1 Hj Hu Hk Hr Hd Hc. destruct (decide (j = i)) as [->|Hne].
    - simplify_eq. exists b1.
      rewrite list_lookup_insert_eq by by eapply lookup_lt_Some. done.
    - exists b. rewrite list_lookup_insert_ne by done. by split_and!. }
  assert (Hrenew : ∀ b0 b1, renew b0 t = Some b1 →
    b_user_id b1 = b_user_id b0 ∧ b_book_id b1 = b_book_id b0 ∧
    status b1 = status b0 ∧ due_date b0 <= due_date b1 ∧
    renewed_count b0 <= renewed_count b1).
  { intros b0 b1. unfold renew. destruct (can_renew b0 t); [|done].
    intros [= <-]. simpl. unfold timedelta_days, max_borrow_days, usec_per_day,
      usec_per_hour. split_and!; try done; lia. }
  destruct vis as [[u k c|u bid c|u bid c|u fc]|u k|u k|u f|u]; unfold serve, handle.
  - unfold borrow. repeat case_match; simpl; try by apply Hsame.
    all: exists b; split; [by apply lookup_app_l_Some|by split_and!].
  - unfold return_book. destruct (borrowed_by s bid u) as [b0|] eqn:Hby;
      [|by apply Hsame].
    apply borrowed_by_inv in Hby as (Hb0 & _ & Hst). simpl.
    apply (Hins bid b0); try done. simpl. rewrite Hst. simpl. lia.
  - unfold renew_book. destruct (borrowed_by s bid u) as [b0|] eqn:Hby;
      [|by apply Hsame].
    apply borrowed_by_inv in Hby as (Hb0 & _ & Hst).
    destruct (renew b0 t) as [b1|] eqn:Hr; [|repeat case_match; by apply Hsame].
    destruct (Hrenew _ _ Hr) as (? & ? & Hst1 & ? & ?).
    destruct (books _ !! _); simpl; apply (Hins bid b0); try done;
      by rewrite Hst1.
  - destruct (verify_borrowings s u fc t)
      as [E|(j & b0 & b1 & Hj & E & [[Haw ->]|[->|Hr]])]; simpl in E; rewrite E.
    + by apply Hsame.
    + apply (Hins j b0); try done. simpl.
      destruct (status b0); simpl in *; try done; lia.
    + apply (Hins j b0); try done. simpl. destruct (status b0); simpl; lia.
    + destruct (Hrenew _ _ Hr) as (? & ? & Hst1 & ? & ?).
      apply (Hins j b0); try done. by rewrite Hst1.
  - apply Hsame. unfold reserve. by repeat case_match.
  - apply Hsame. unfold cancel_reservation. by repeat case_match.
  - unfold pay_fine. destruct (borrowings s !! f) as [b0|] eqn:Hb0; [|by apply Hsame].
    destruct (decide _); [|by apply Hsame].
    destruct (fine_outstanding b0 t); [|by apply Hsame]. simpl.
    by apply (Hins f b0).
  - rewrite pay_all_fines_state. simpl. exists (settle_fine u t b).
    rewrite list_lookup_fmap, Hi. simpl.
    destruct (settle_fine_keeps u t b) as (-> & -> & -> & -> & _ & ->). done.
Qed.

(** Whatever visits are served, a borrowing keeps its row, its reader and its
    book; its status never moves back along pending, borrowed,
    pending_return, returned (a returned borrowing stays returned); its due
    date never gets earlier and its renewals never fewer. *)
Theorem borrowing_only_moves_forward cb gtf visits : ∀ s i b,
  borrowings s !! i = Some b →
  ∃ b', borrowings (serve_all cb gtf s visits) !! i = Some b' ∧
        b_user_id b' = b_user_id b ∧ b_book_id b' = b_book_id b ∧
        (status_rank (status b) ≤ status_rank (status b'))%nat ∧
        (status b = Returned → status b' = Returned) ∧
        due_date b <= due_date b' ∧ renewed_count b <= renewed_count b'.
Proof.
  induction visits as [|[t vis] visits IH]; intros s i b Hi; simpl.
  { exists b. by split_and!. }
  destruct (serve_keeps_borrowing cb gtf s t vis i b Hi)
    as (b1 & Hi1 & Hu1 & Hk1 & Hr1 & Hd1 & Hc1).
  destruct (IH _ i b1 Hi1) as (b2 & Hi2 & Hu2 & Hk2 & Hr2 & _ & Hd2 & Hc2).
  exists b2. split_and!; try congruence; try lia.
  intros Hst. rewrite Hst in Hr1. simpl in *.
  destruct (status b2); simpl in *; try done; lia.
Qed.
(** *** Books *)

Lemma serve_keeps_book cb gtf s t vis k bk :
  books s !! k = Some bk →
  ∃ bk', books (serve cb gtf s t vis) !! k = Some bk' ∧
         title bk' = title bk ∧ total_copies bk' = total_copies bk ∧
         - 1 <= available_copies bk' - available_copies bk <= 1.
Proof.
  intros Hk.
  assert (Hsame : ∀ bs, bs = books s →
    ∃ bk', bs !! k = Some bk' ∧ title bk' = title bk ∧
           total_copies bk' = total_copies bk ∧
           - 1 <= available_copies bk' - available_copies bk <= 1).
  { intros bs ->. exists bk. split_and!; try done; lia. }
  assert (Hins : ∀ j bj d, books s !! j = Some bj → - 1 <= d <= 1 →
    ∃ bk', <[j := set_available (available_copies bj + d) bj]> (books s) !! k = Some bk' ∧
           title bk' = title bk ∧ total_copies bk' = total_copies bk ∧
           - 1 <= available_copies bk' - available_copies bk <= 1).
  { intros j bj d Hj Hd. destruct (decide (j = k)) as [->|Hne].
    - simplify_eq. eexists. rewrite list_lookup_insert_eq by by eapply lookup_lt_Some.
      split; [done|]. simpl. split_and!; try done; lia.
    - rewrite list_lookup_insert_ne by done. by apply Hsame. }
  destruct vis as [[u j c|u bid c|u bid c|u fc]|u j|u j|u f|u]; unfold serve, handle.
  - apply Hsame, borrow_books.
  - apply Hsame, return_book_books.
  - apply Hsame, renew_book_books.
  - destruct (verify_books s u fc t)
      as [E|[(j & bj & Hj & E & _)|(j & bj & Hj & E & _)]]; simpl in E; rewrite E.
    + by apply Hsame.
    + apply (Hins j bj (-1)); [done|lia].
    + apply (Hins j bj 1); [done|lia].
  - apply Hsame. unfold reserve. by repeat case_match.
  - apply Hsame. unfold cancel_reservation. by repeat case_match.
  - apply Hsame. unfold pay_fine. by repeat case_match.
  - by apply Hsame.
Qed.

Lemma serve_books_length cb gtf s t vis :
  length (books (serve cb gtf s t vis)) = length (books s).
Proof.
  destruct vis as [[u j c|u bid c|u bid c|u fc]|u j|u j|u f|u]; unfold serve, handle.
  - by rewrite borrow_books.
  - by rewrite return_book_books.
  - by rewrite renew_book_books.
  - destruct (verify_books s u fc t)
      as [E|[(j & bj & Hj & E & _)|(j & bj & Hj & E & _)]]; simpl in E; rewrite E;
      by rewrite ?length_insert.
  - unfold reserve. by repeat case_match.
  - unfold cancel_reservation. by repeat case_match.
  - unfold pay_fine. by repeat case_match.
  - done.
Qed.

(** No visit adds or removes a book or changes a title or [total_copies];
    [available_copies] moves by at most one per visit. *)
Theorem catalogue_is_never_edited cb gtf visits : ∀ s,
  length (books (serve_all cb gtf s visits)) = length (books s) ∧
  ∀ k bk, books s !! k = Some bk →
    ∃ bk', books (serve_all cb gtf s visits) !! k = Some bk' ∧
           title bk' = title bk ∧ total_copies bk' = total_copies bk ∧
           Z.abs (available_copies bk' - available_copies bk) <= Z.of_nat (length visits).
Proof.
  induction visits as [|[t vis] visits IH]; intros s; simpl.
  { split; [done|]. intros k bk Hk. exists bk. split_and!; try done. lia. }
  destruct (IH (serve cb gtf s t vis)) as [Hlen Hrows]. split.
  { by rewrite Hlen, serve_books_length. }
  intros k bk Hk.
  destruct (serve_keeps_book cb gtf s t vis k bk Hk) as (bk1 & Hk1 & Ht1 & Hc1 & Hd1).
  destruct (Hrows k bk1 Hk1) as (bk2 & Hk2 & Ht2 & Hc2 & Hd2).
  exists bk2. split_and!; try congruence. lia.
Qed.
(** *** Reservations *)

Lemma verify_reservations s u fc now :
  let s1 := (verify_transaction_code s u fc now).1 in
  reservations s1 = reservations s ∨
  ∃ j r k, next_reservation s k = Some (j, r) ∧
           reservations s1 = <[j := set_promoted (now + timedelta_days 3) r]> (reservations s).
Proof.
  simpl. unfold verify_transaction_code.
  destruct (decide _); [by left|].
  destruct (negb _); [by left|].
  destruct (find_verification _ _ _) as [[i v]|]; [|by left].
  destruct (is_verified v); [by left|].
  destruct (is_expired v now); [by left|].
  unfold finalize. simpl.
  destruct (borrowings s !! borrowing_id v) as [b|] eqn:Hb; [|by left].
  destruct (ttype v).
  - destruct (awaits_confirmation (status b)); [|rewrite commit_and_flash_state; by left].
    destruct (books s !! b_book_id b); [|by left].
    destruct (_ <=? _); [by left|]. rewrite commit_and_flash_state. by left.
  - destruct (books s !! b_book_id b); [|by left].
    rewrite commit_and_flash_state. unfold next_reservation. simpl.
    destruct (next_reservation_from 0 (reservations s) (b_book_id b))
      as [[j r]|] eqn:Hnext; [|by left].
    right. exists j, r, (b_book_id b). split; [exact Hnext|reflexivity].
  - destruct (can_renew b now); [|rewrite commit_and_flash_state; by left].
    destruct (renew b now); rewrite commit_and_flash_state; by left.
Qed.

(** What one visit can do to the reservations: nothing; or one row replaced
    by a row of the same reader, book and creation time that is pending only
    if it was; or one pending row appended for a reader who had no pending
    reservation of that book. *)
Lemma serve_reservations cb gtf s t vis :
  let rs' := reservations (serve cb gtf s t vis) in
  rs' = reservations s ∨
  (∃ i r r', reservations s !! i = Some r ∧ rs' = <[i := r']> (reservations s) ∧
             r_user_id r' = r_user_id r ∧ r_book_id r' = r_book_id r ∧
             (r_status r' = RPending → r_status r = RPending)) ∨
  (∃ u k, rs' = reservations s ++ [mkReservation u k RPending t None false] ∧
          pending_reservation_of s u k = None).
Proof.
  destruct vis as [[u k c|u bid c|u bid c|u fc]|u k|u k|u f|u]; unfold serve, handle;
    cbv zeta.
  - unfold borrow. repeat case_match; simpl; try by left.
    right; left.
    match goal with H : pending_reservation_of _ _ _ = Some (?i, ?r) |- _ =>
      apply list_find_Some in H as (Hi & _ & _);
      exists i, r, (set_r_status RFulfilled r) end.
    by split_and!.
  - left. unfold return_book. by repeat case_match.
  - left. unfold renew_book. by repeat case_match.
  - destruct (verify_reservations s u fc t) as [E|(j & r & k & Hnext & E)];
      simpl in E; rewrite E; [by left|].
    right; left. exists j, r, (set_promoted (t + timedelta_days 3) r).
    apply next_reservation_from_Some in Hnext as (_ & Hj & _).
    rewrite Nat.sub_0_r in Hj. by split_and!.
  - unfold reserve. destruct (books s !! k); [|by left].
    destruct (is_available _); [by left|].
    destruct (pending_reservation_of s u k) eqn:Hnone; [by left|].
    right; right. by exists u, k.
  - unfold cancel_reservation.
    destruct (pending_reservation_of s u k) as [[i r]|] eqn:Hfind; [|by left].
    right; left. apply list_find_Some in Hfind as (Hi & _ & _).
    exists i, r, (set_r_status RCancelled r). by split_and!.
  - left. unfold pay_fine. by repeat case_match.
  - by left.
Qed.

Lemma serve_unique_pending cb gtf s t vis :
  unique_pending s → unique_pending (serve cb gtf s t vis).
Proof.
  intros Hs. unfold unique_pending.
  destruct (serve_reservations cb gtf s t vis)
    as [E|[(i0 & r0 & r1 & Hi0 & E & Hu & Hk & Hst)|(u & k & E & Hnone)]];
    simpl in E; rewrite E; clear E.
  - exact Hs.
  - assert (Hold : ∀ i r, <[i0 := r1]> (reservations s) !! i = Some r →
                          r_status r = RPending →
              ∃ r', reservations s !! i = Some r' ∧ r_status r' = RPending ∧
                    r_user_id r' = r_user_id r ∧ r_book_id r' = r_book_id r).
    { intros i r Hi Hp. apply list_lookup_insert_Some in Hi as [(-> & <- & _)|[_ Hi]].
      - exists r0. split_and!; auto.
      - by exists r. }
    intros i j r r' Hi Hj Hp Hp' Hu' Hk'.
    destruct (Hold i r Hi Hp) as (q & Hq & Hqp & Hqu & Hqk).
    destruct (Hold j r' Hj Hp') as (q' & Hq' & Hqp' & Hqu' & Hqk').
    apply (Hs i j q q'); congruence.
  - unfold pending_reservation_of in Hnone.
    apply list_find_None in Hnone.
    assert (Hnew : ∀ i r, reservations s !! i = Some r → r_status r = RPending →
                          r_user_id r = u → r_book_id r = k → False).
    { intros i r Hi Hp Hu Hk.
      eapply (Forall_lookup_1 _ _ _ _ Hnone Hi). by split_and!. }
    intros i j r r' Hi Hj Hp Hp' Hu' Hk'.
    apply lookup_snoc_Some in Hi as [[_ Hi]|[-> <-]];
      apply lookup_snoc_Some in Hj as [[_ Hj]|[-> <-]]; simpl in *.
    + by apply (Hs i j r r').
    + exfalso. by apply (Hnew i r).
    + exfalso. by apply (Hnew j r').
    + done.
Qed.

(** If no reader has two pending reservations of one book, no sequence of
    visits gives a reader two. *)
Theorem one_pending_reservation_per_reader cb gtf visits : ∀ s,
  unique_pending s → unique_pending (serve_all cb gtf s visits).
Proof.
  induction visits as [|[t vis] visits IH]; intros s Hs; simpl; [done|].
  apply IH. by apply serve_unique_pending.
Qed.
Lemma waiting_for_ext k r r' :
  r_book_id r' = r_book_id r → r_status r' = r_status r →
  waiting_for k r' = waiting_for k r.
Proof. intros Hk Hs. unfold waiting_for. by rewrite Hk, Hs. Qed.

Lemma next_reservation_from_insert_None rs : ∀ i k j r r',
  rs !! j = Some r → r_book_id r' = r_book_id r → r_status r' = r_status r →
  next_reservation_from i rs k = None →
  next_reservation_from i (<[j := r']> rs) k = None.
Proof.
  induction rs as [|r0 rs IH]; intros i k [|j] r r' Hj Hk Hs Hnone;
    simplify_eq/=.
  - rewrite (waiting_for_ext k r r') by done.
    destruct (waiting_for k r); [by repeat case_match|done].
  - destruct (next_reservation_from (S i) rs k) as [[??]|] eqn:Hl.
    + by destruct (waiting_for k r0); [destruct (_ <? _)|].
    + rewrite (IH (S i) k j r r') by done. exact Hnone.
Qed.

(** Replacing a row by one with the same book, status and creation time
    leaves the head of the queue where it is. *)
Lemma next_reservation_from_insert rs : ∀ i k j r r' j0 r0,
  rs !! j = Some r →
  r_book_id r' = r_book_id r → r_status r' = r_status r →
  r_created_at r' = r_created_at r →
  next_reservation_from i rs k = Some (j0, r0) →
  next_reservation_from i (<[j := r']> rs) k
  = Some (j0, if decide (j0 = (i + j)%nat) then r' else r0).
Proof.
  induction rs as [|q rs IH]; intros i k [|j] r r' j0 r0 Hj Hk Hs Hc Hnext;
    simplify_eq/=.
  - rewrite (waiting_for_ext k r r'), Hc by done.
    destruct (next_reservation_from (S i) rs k) as [[j1 r1]|] eqn:Hl.
    + apply next_reservation_from_Some in Hl as (Hle & _).
      destruct (waiting_for k r).
      * destruct (r_created_at r1 <? r_created_at r); simplify_eq.
        -- rewrite decide_False by lia. done.
        -- rewrite decide_True by lia. done.
      * simplify_eq. rewrite decide_False by lia. done.
    + destruct (waiting_for k r); simplify_eq. rewrite decide_True by lia. done.
  - destruct (next_reservation_from (S i) rs k) as [[j1 r1]|] eqn:Hl.
    + rewrite (IH (S i) k j r r' j1 r1) by done.
      pose proof Hl as Hl'.
      apply next_reservation_from_Some in Hl' as (Hle & Hj1 & _).
      assert (Hcr : r_created_at (if decide (j1 = (S i + j)%nat) then r' else r1)
                    = r_created_at r1).
      { destruct (decide _) as [->|]; [|done].
        replace (S i + j - S i)%nat with j in Hj1 by lia. by simplify_eq. }
      rewrite Hcr.
      destruct (waiting_for k q).
      * destruct (r_created_at r1 <? r_created_at q); simplify_eq.
        -- f_equal. f_equal. by repeat case_decide; try lia.
        -- rewrite decide_False by lia. done.
      * simplify_eq. f_equal. f_equal. by repeat case_decide; try lia.
    + rewrite (next_reservation_from_insert_None rs (S i) k j r r') by done.
      destruct (waiting_for k q); simplify_eq. rewrite decide_False by lia. done.
Qed.

Lemma return_promotion_shape s u fc now i v b bk j r :
  presents s u fc i v →
  is_verified v = false → is_expired v now = false →
  ttype v = TReturn →
  borrowings s !! borrowing_id v = Some b →
  books s !! b_book_id b = Some bk →
  next_reservation s (b_book_id b) = Some (j, r) →
  reservations s !! j = Some r ∧ r_status r = RPending ∧
  reservations (verify_transaction_code s u fc now).1
  = <[j := set_promoted (now + timedelta_days 3) r]> (reservations s).
Proof.
  intros [Hlen Hfind] Hver Hexp Ht Hb Hbk Hnext.
  rewrite verify_six, Hfind, Hver, Hexp by done.
  unfold finalize. simpl. rewrite Ht, Hb, Hbk.
  rewrite commit_and_flash_state. unfold next_reservation in *. simpl.
  rewrite Hnext. simpl.
  apply next_reservation_from_Some in Hnext as (_ & Hj & Hw & _).
  rewrite Nat.sub_0_r in Hj. apply waiting_for_true in Hw as [_ Hst]. done.
Qed.

(** The reservation that a confirmed return promotes stays pending and first
    in line: the next return of the book finds the same reservation again,
    and every other reservation is left as it was. *)
Theorem promoted_reservation_stays_first s u fc now i v b bk j r :
  presents s u fc i v →
  is_verified v = false → is_expired v now = false →
  ttype v = TReturn →
  borrowings s !! borrowing_id v = Some b →
  books s !! b_book_id b = Some bk →
  next_reservation s (b_book_id b) = Some (j, r) →
  let s1 := (verify_transaction_code s u fc now).1 in
  next_reservation s1 (b_book_id b)
  = Some (j, mkReservation (r_user_id r) (r_book_id r) RPending (r_created_at r)
                (Some (now + timedelta_days 3)) true) ∧
  ∀ j' r', j' ≠ j → reservations s !! j' = Some r' → reservations s1 !! j' = Some r'.
Proof.
  intros Hp Hver Hexp Ht Hb Hbk Hnext.
  destruct (return_promotion_shape s u fc now i v b bk j r)
    as (Hj & Hst & Hres); try done.
  cbv zeta. unfold next_reservation in *. rewrite Hres. split.
  - rewrite (next_reservation_from_insert _ 0 _ j r
               (set_promoted (now + timedelta_days 3) r) j r) by done.
    rewrite decide_True by done. unfold set_promoted. by rewrite Hst.
  - intros j' r' Hne Hj'. by rewrite list_lookup_insert_ne.
Qed.
Lemma pending_reservation_of_snoc s u k now :
  pending_reservation_of s u k = None →
  pending_reservation_of
    (with_reservations (reservations s ++ [mkReservation u k RPending now None false]) s)
    u k
  = Some (length (reservations s), mkReservation u k RPending now None false).
Proof.
  unfold pending_reservation_of. simpl. intros Hnone.
  rewrite list_find_app_r by done. simpl. rewrite decide_True by done.
  reflexivity.
Qed.

(** A reader without a pending reservation of an unavailable book can reserve
    it; the book page then shows the reservation and a second request is
    refused; cancelling marks that reservation cancelled, after which the
    page shows none and a second cancellation is not found; the books, the
    borrowings, the verification codes and the notifications are as they
    were. *)
Theorem reserve_then_cancel s u k now bk :
  books s !! k = Some bk → is_available bk = false →
  pending_reservation_of s u k = None →
  let s1 := (reserve s u k now).1 in
  let s2 := (cancel_reservation s1 u k).1 in
  (reserve s u k now).2 = Noticed NoticeReserved ∧
  reservations s1 = reservations s ++ [mkReservation u k RPending now None false] ∧
  user_reserved s1 u k = true ∧
  (∀ now', reserve s1 u k now' = (s1, Noticed NoticeAlreadyReserved)) ∧
  (cancel_reservation s1 u k).2 = Noticed NoticeCancelled ∧
  reservations s2 = reservations s ++ [mkReservation u k RCancelled now None false] ∧
  user_reserved s2 u k = false ∧
  cancel_reservation s2 u k = (s2, Missing) ∧
  books s2 = books s ∧ borrowings s2 = borrowings s ∧
  verifications s2 = verifications s ∧ notifications s2 = notifications s.
Proof.
  intros Hbk Hav Hnone. cbv zeta.
  assert (E1 : reserve s u k now
    = (with_reservations (reservations s ++ [mkReservation u k RPending now None false]) s,
       Noticed NoticeReserved)).
  { unfold reserve. by rewrite Hbk, Hav, Hnone. }
  rewrite E1. simpl.
  pose proof (pending_reservation_of_snoc s u k now Hnone) as Hfind.
  assert (E2 : cancel_reservation
                 (with_reservations
                    (reservations s ++ [mkReservation u k RPending now None false]) s) u k
    = (with_reservations (reservations s ++ [mkReservation u k RCancelled now None false]) s,
       Noticed NoticeCancelled)).
  { unfold cancel_reservation. rewrite Hfind. simpl.
    replace (length (reservations s)) with (length (reservations s) + 0)%nat by lia.
    by rewrite insert_app_r. }
  rewrite E2. simpl.
  assert (Hgone : pending_reservation_of
                    (with_reservations
                       (reservations s ++ [mkReservation u k RCancelled now None false]) s)
                    u k = None).
  { pose proof Hnone as Hn. unfold pending_reservation_of in Hn.
    apply list_find_None in Hn.
    unfold pending_reservation_of. simpl. apply list_find_None.
    apply Forall_app. split; [exact Hn|].
    apply Forall_singleton. simpl. intros (_ & _ & ?). done. }
  split_and!; try done.
  - unfold user_reserved. rewrite Hfind. by apply bool_decide_eq_true_2.
  - intros now'. unfold reserve. simpl. by rewrite Hbk, Hav, Hfind.
  - unfold user_reserved. rewrite Hgone. apply bool_decide_eq_false_2.
    by intros [? ?].
  - unfold cancel_reservation. by rewrite Hgone.
Qed.

(** In no state is a book open to both requests: if it is available every
    reservation request is answered "borrow it directly", and if it is not
    every borrow request is refused as unavailable; the refused request
    leaves the state as it was. *)
Theorem reserve_or_borrow_never_both s k bk :
  books s !! k = Some bk →
  (is_available bk = true ∧
   ∀ u now, reserve s u k now = (s, Noticed NoticeBorrowDirectly)) ∨
  (is_available bk = false ∧
   ∀ cb gtf u now code, borrow cb gtf s u k now code = (s, Flashed FlashNotAvailable)).
Proof.
  intros Hbk. destruct (is_available bk) eqn:Hav; [left|right]; split; try done.
  - intros u now. unfold reserve. by rewrite Hbk, Hav.
  - intros cb gtf u now code. unfold borrow. by rewrite Hbk, Hav.
Qed.

(** The flags of the book page agree with the handlers: when it shows a
    reservation, cancelling succeeds and reserving again creates nothing; when
    it shows none, cancelling is not found; when it shows the book as
    borrowed by the reader, no borrow request is accepted. *)
Theorem book_page_flags_agree_with_the_desks s u k :
  (if user_reserved s u k
   then (cancel_reservation s u k).2 = Noticed NoticeCancelled ∧
        ∀ now, (reserve s u k now).1 = s ∧ (reserve s u k now).2 ≠ Noticed NoticeReserved
   else cancel_reservation s u k = (s, Missing)) ∧
  (if user_borrowed s u k
   then ∀ cb gtf now code,
          (borrow cb gtf s u k now code).1 = s ∧
          (borrow cb gtf s u k now code).2 ≠ Flashed FlashBorrowSubmitted
   else True).
Proof.
  split.
  - unfold user_reserved. case_bool_decide as H.
    + destruct H as [[i r] Hfind]. split.
      * unfold cancel_reservation. by rewrite Hfind.
      * intros now. unfold reserve. rewrite Hfind. by repeat case_match.
    + unfold cancel_reservation.
      destruct (pending_reservation_of s u k) as [[i r]|]; [|done].
      destruct H. by eexists.
  - unfold user_borrowed. case_bool_decide as H; [|done].
    destruct H as [[i b] Hfind]. intros cb gtf now code.
    unfold borrow. rewrite Hfind. by repeat case_match.
Qed.

(** *** Copy accounting on the whole site *)

Lemma loans_fmap (f : Borrowing → Borrowing) k bs :
  (∀ b, holds_copy_of k (f b) = holds_copy_of k b) →
  loans (f <$> bs) k = loans bs k.
Proof.
  intros Hf. induction bs as [|b bs IH]; simpl; [done|].
  change (list_fmap Borrowing Borrowing f bs) with (f <$> bs).
  by rewrite Hf, IH.
Qed.

Lemma serve_consistent cb gtf s t vis :
  consistent s → consistent (serve cb gtf s t vis).
Proof.
  intros Hs.
  destruct vis as [req|u k|u k|u f|u]; unfold serve.
  - by apply handle_consistent.
  - unfold reserve. repeat case_match; simpl; try done.
    destruct Hs as [Hacc Hlive Hdist]. by split.
  - unfold cancel_reservation. repeat case_match; simpl; try done.
    destruct Hs as [Hacc Hlive Hdist]. by split.
  - unfold pay_fine. destruct (borrowings s !! f) as [b|] eqn:Hb; [|done].
    destruct (decide _); [|done]. destruct (fine_outstanding b t); [|done]. simpl.
    eapply (consistent_replace_borrowing s _ f b
              (set_fine_paid true (set_fine_amount (overdue_fine b t) b)));
      simpl; auto.
  - rewrite pay_all_fines_state. simpl.
    destruct Hs as [Hacc Hlive Hdist]. split; simpl.
    + intros k bk Hk. rewrite loans_fmap; [by apply Hacc|].
      intros b. unfold holds_copy_of.
      by destruct (settle_fine_keeps u t b) as (_ & -> & -> & _).
    + intros i v Hi Hopen. destruct (Hlive i v Hi Hopen) as (b & Hb & Hst).
      exists (settle_fine u t b). rewrite list_lookup_fmap, Hb. simpl.
      by destruct (settle_fine_keeps u t b) as (_ & _ & -> & _).
    + done.
Qed.

(** Reservation and fine requests keep a consistent state consistent too: from
    a consistent state every sequence of visits leads to one in which every
    book has [0 <= available_copies <= total_copies]. *)
Theorem copies_invariant_on_the_whole_site cb gtf visits : ∀ s,
  consistent s →
  consistent (serve_all cb gtf s visits) ∧ copies_invariant (serve_all cb gtf s visits).
Proof.
  induction visits as [|[t vis] visits IH]; intros s Hs; simpl.
  { split; [done|by apply consistent_copies_invariant]. }
  apply IH. by apply serve_consistent.
Qed.
(** *** The form field *)

Lemma is_space_upper_char c : is_space (upper_char c) = is_space c.
Proof. by destruct c as [[] [] [] [] [] [] [] []]. Qed.

Lemma upper_char_idem c : upper_char (upper_char c) = upper_char c.
Proof. by destruct c as [[] [] [] [] [] [] [] []]. Qed.

Lemma upper_idem s : upper (upper s) = upper s.
Proof. induction s as [|c s IH]; simpl; [done|]. by rewrite upper_char_idem, IH. Qed.

Lemma lstrip_upper s : lstrip (upper s) = upper (lstrip s).
Proof.
  induction s as [|c s IH]; simpl; [done|].
  rewrite is_space_upper_char. by destruct (is_space c).
Qed.

Lemma upper_empty s : upper s = EmptyString ↔ s = EmptyString.
Proof. by destruct s. Qed.

Lemma rstrip_upper s : rstrip (upper s) = upper (rstrip s).
Proof.
  induction s as [|c s IH]; simpl; [done|].
  rewrite IH, is_space_upper_char.
  destruct (rstrip s) as [|c' t]; simpl; [by destruct (is_space c)|done].
Qed.

Lemma strip_upper s : strip (upper s) = upper (strip s).
Proof. unfold strip. by rewrite lstrip_upper, rstrip_upper. Qed.

Lemma rstrip_idem s : rstrip (rstrip s) = rstrip s.
Proof.
  induction s as [|c s IH]; simpl; [done|].
  destruct (rstrip s) as [|c' t] eqn:E.
  - destruct (is_space c) eqn:Hc; simpl; [done|]. by rewrite Hc.
  - simpl in *. by rewrite IH.
Qed.

Lemma lstrip_rstrip_lstrip s : lstrip (rstrip (lstrip s)) = rstrip (lstrip s).
Proof.
  induction s as [|c s IH]; simpl; [done|].
  destruct (is_space c) eqn:Hc; [done|]. simpl.
  destruct (rstrip s); rewrite ?Hc; simpl; by rewrite Hc.
Qed.

Lemma strip_idem s : strip (strip s) = strip s.
Proof. unfold strip. by rewrite lstrip_rstrip_lstrip, rstrip_idem. Qed.

Lemma rstrip_blank r : blank r = true → rstrip r = EmptyString.
Proof.
  induction r as [|c r IH]; simpl; [done|].
  intros [Hc Hr]%andb_true_iff. by rewrite IH, Hc.
Qed.

Lemma rstrip_app_blank s r : blank r = true → rstrip (s +:+ r) = rstrip s.
Proof.
  intros Hr. induction s as [|c s IH]; simpl; [by apply rstrip_blank|].
  by rewrite IH.
Qed.

Lemma lstrip_blank_app l s : blank l = true → lstrip (l +:+ s) = lstrip s.
Proof.
  induction l as [|c l IH]; simpl; [done|].
  intros [Hc Hl]%andb_true_iff. rewrite Hc. by apply IH.
Qed.

Lemma lstrip_blank r : blank r = true → lstrip r = EmptyString.
Proof.
  induction r as [|c r IH]; simpl; [done|].
  intros [Hc Hr]%andb_true_iff. rewrite Hc. by apply IH.
Qed.

Lemma strip_app_blank s r : blank r = true → strip (s +:+ r) = strip s.
Proof.
  intros Hr. unfold strip. induction s as [|c s IH]; simpl.
  - by rewrite lstrip_blank.
  - destruct (is_space c); [done|].
    change (String c (s +:+ r)) with (String c s +:+ r).
    by apply rstrip_app_blank.
Qed.

Lemma strip_blank_app l s : blank l = true → strip (l +:+ s) = strip s.
Proof. intros Hl. unfold strip. by rewrite lstrip_blank_app. Qed.

Lemma normal_form_of_a_code_is_stable fc :
  upper (strip (upper (strip fc))) = upper (strip fc) ∧
  strip (upper (strip fc)) = upper (strip fc) ∧
  (∀ l r, blank l = true → blank r = true →
          upper (strip (l +:+ fc +:+ r)) = upper (strip fc)) ∧
  upper (strip (upper fc)) = upper (strip fc).
Proof.
  split_and!.
  - by rewrite strip_upper, strip_idem, upper_idem.
  - by rewrite strip_upper, strip_idem.
  - intros l r Hl Hr. by rewrite strip_blank_app, strip_app_blank.
  - by rewrite strip_upper, upper_idem.
Qed.

(** For a form field of ASCII characters, ASCII white space around it and the
    case of its letters do not matter to [verify_transaction_code]. *)
Theorem blanks_and_case_do_not_matter s u fc l r now :
  ascii_only fc = true → blank l = true → blank r = true →
  verify_transaction_code s u (l +:+ fc +:+ r) now = verify_transaction_code s u fc now ∧
  verify_transaction_code s u (upper fc) now = verify_transaction_code s u fc now ∧
  verify_transaction_code s u (upper (strip fc)) now = verify_transaction_code s u fc now.
Proof.
  intros _ Hl Hr. unfold verify_transaction_code.
  rewrite strip_blank_app, strip_app_blank by done.
  rewrite !strip_upper, !upper_idem, strip_idem. done.
Qed.

(** *** Generated codes *)

Lemma code_alphabet_clean :
  Forall (λ c, is_space c = false ∧ upper_char c = c) code_alphabet.
Proof. unfold code_alphabet. simpl. repeat (constructor; [by split|]). constructor. Qed.

Lemma clean_string_normal (cs : list ascii) :
  Forall (λ c, is_space c = false ∧ upper_char c = c) cs →
  upper (strip (string_of_list_ascii cs)) = string_of_list_ascii cs ∧
  String.length (string_of_list_ascii cs) = length cs.
Proof.
  intros Hcs.
  assert (Hr : rstrip (string_of_list_ascii cs) = string_of_list_ascii cs).
  { induction Hcs as [|c cs [Hc _] _ IH]; simpl; [done|].
    rewrite IH. destruct (string_of_list_ascii cs); by rewrite ?Hc. }
  assert (Hl : lstrip (string_of_list_ascii cs) = string_of_list_ascii cs).
  { destruct Hcs as [|c cs [Hc _] _]; simpl; [done|]. by rewrite Hc. }
  unfold strip. rewrite Hl, Hr. split.
  - clear Hl Hr. induction Hcs as [|c cs [_ Hc] _ IH]; simpl; [done|].
    by rewrite Hc, IH.
  - clear. induction cs as [|c cs IH]; simpl; [done|]. by rewrite IH.
Qed.

(** A generated code has the requested length, consists of capital letters
    and digits, and is its own normal form, so that a six-character code
    passes the checks of [verify_transaction_code] as it was sent; a code
    exists only if every draw lies inside the population of 36 characters. *)
Theorem generated_code_is_in_normal_form n draw code :
  generate_verification_code n draw = Some code →
  String.length code = n ∧
  upper (strip code) = code ∧
  Forall (λ c, c ∈ code_alphabet) (list_ascii_of_string code) ∧
  (∀ j, (j < n)%nat → (draw j < 36)%nat).
Proof.
  unfold generate_verification_code. intros Hgen.
  apply fmap_Some in Hgen as (cs & Hcs & ->).
  pose proof (length_mapM _ _ _ Hcs) as Hlen. rewrite length_seq in Hlen.
  apply mapM_Some in Hcs.
  assert (Hin : Forall (λ c, c ∈ code_alphabet) cs).
  { clear Hlen. induction Hcs as [|j c js cs Hj _ IH]; constructor; [|done].
    by eapply list_elem_of_lookup_2. }
  assert (Hclean : Forall (λ c, is_space c = false ∧ upper_char c = c) cs).
  { eapply Forall_impl; [exact Hin|]. intros c Hc. simpl in Hc.
    by apply (proj1 (Forall_forall _ _) code_alphabet_clean). }
  destruct (clean_string_normal cs Hclean) as [Hnorm Hl].
  split_and!; try done.
  - by rewrite Hl.
  - by rewrite list_ascii_of_string_of_list_ascii.
  - intros j Hj.
    destruct (Forall2_lookup_l _ _ _ j (0 + j)%nat Hcs) as (c & _ & Hc).
    { by apply lookup_seq_lt. }
    simpl in Hc. by apply lookup_lt_Some in Hc.
Qed.
(** *** Issuing a code and finding it again *)

(** After a code is issued, looking it up for its reader finds the new record,
    unless the reader already had a record with the same code, which is then
    found instead; the lookups of every other reader or code and all other
    tables are unchanged. *)
Theorem issued_code_is_found_unless_shadowed s u bid t now code :
  let s1 := create_transaction_verification s u bid t now code in
  let issued := mkVerification u bid t code now (now + 24 * usec_per_hour) false None in
  find_verification s1 u code
  = match find_verification s u code with
    | Some earlier => Some earlier
    | None => Some (length (verifications s), issued)
    end ∧
  (∀ u' code', u' ≠ u ∨ code' ≠ code →
               find_verification s1 u' code' = find_verification s u' code') ∧
  books s1 = books s ∧ borrowings s1 = borrowings s ∧
  reservations s1 = reservations s ∧ notifications s1 = notifications s.
Proof.
  cbv zeta. unfold find_verification, create_transaction_verification. simpl.
  split_and!; try done.
  - destruct (list_find _ (verifications s)) as [[i v]|] eqn:Hfind.
    + by apply list_find_app_l.
    + rewrite list_find_app_r by done. simpl. by rewrite decide_True.
  - intros u' code' Hne.
    destruct (list_find _ (verifications s)) as [[i v]|] eqn:Hfind.
    + by apply list_find_app_l.
    + rewrite list_find_app_r by done. simpl. rewrite decide_False; [done|].
      intros [-> ->]. by destruct Hne.
Qed.

(** An accepted borrow request whose generated code is new to the reader is
    confirmed by that code, typed in any case and with surrounding blanks,
    within 24 hours: the borrowing becomes borrowed with its due date 14 days
    after the request, and the book has one copy less. *)
Theorem emailed_code_confirms_the_borrow cb gtf s u k now code bk draw fc now' :
  books s !! k = Some bk → is_available bk = true →
  cb s u = true → existing_borrowing s u k = None →
  generate_verification_code 6 draw = Some code →
  find_verification s u code = None →
  upper (strip fc) = code → now' <= now + 24 * usec_per_hour →
  let s1 := (borrow cb gtf s u k now code).1 in
  let s2 := (verify_transaction_code s1 u fc now').1 in
  (verify_transaction_code s1 u fc now').2 = Flashed (FlashVerified TBorrow (title bk)) ∧
  borrowings s2 =
    borrowings s ++
      [mkBorrowing u k Borrowed (Some now') (now + 14 * usec_per_day) None 0 0 false] ∧
  books s2 = <[k := mkBook (title bk) (total_copies bk) (available_copies bk - 1)]> (books s).
Proof.
  intros Hbk Hav Hcb Hex Hgen Hfresh Hfc Hnow'. cbv zeta.
  apply generated_code_is_in_normal_form in Hgen as (Hlen & _).
  rewrite (borrow_accepted cb gtf s u k now code bk) by done. cbn [fst].
  set (s0 := match pending_reservation_of s u k with
             | Some (i, reservation) =>
                 with_reservations
                   (<[i := set_r_status RFulfilled reservation]> (reservations s)) s
             | None => s end).
  assert (Hs0 : books s0 = books s ∧ borrowings s0 = borrowings s ∧
                verifications s0 = verifications s)
    by (subst s0; by destruct (pending_reservation_of s u k) as [[??]|]).
  destruct Hs0 as (Hb0 & Hbs0 & Hvs0).
  assert (Hpos : (available_copies bk <=? 0) = false).
  { unfold is_available in Hav. apply Z.ltb_lt in Hav. apply Z.leb_gt. lia. }
  assert (Hexp : (now + timedelta_hours 24 <? now') = false).
  { apply Z.ltb_ge. unfold timedelta_hours. lia. }
  rewrite verify_six by (rewrite Hfc; exact Hlen).
  rewrite Hfc. unfold find_verification, create_transaction_verification. simpl.
  rewrite Hvs0. unfold find_verification in Hfresh.
  rewrite list_find_app_r by done. simpl. rewrite decide_True by done. simpl.
  unfold is_expired. simpl. rewrite Hexp.
  unfold finalize. simpl. rewrite Hbs0, Hb0.
  rewrite list_lookup_middle by done. simpl. rewrite Hbk, Hpos.
  rewrite commit_and_flash_state. simpl.
  unfold commit_and_flash. simpl.
  rewrite list_lookup_insert_eq by by eapply lookup_lt_Some. simpl.
  split_and!; try done.
  replace (length (borrowings s)) with (length (borrowings s) + 0)%nat at 1 by lia.
  by rewrite insert_app_r.
Qed.

(** When a new record gets a code that the reader has already used and
    verified, the lookup still finds the old record, so that the new
    transaction can never be confirmed: presenting the code answers "already
    verified" after whatever visits. *)
Theorem reused_code_cannot_be_confirmed cb gtf s u fc i v bid t now visits now' :
  presents s u fc i v → is_verified v = true →
  let s1 := create_transaction_verification s u bid t now (upper (strip fc)) in
  find_verification s1 u (upper (strip fc)) = Some (i, v) ∧
  verify_transaction_code (serve_all cb gtf s1 visits) u fc now'
  = (serve_all cb gtf s1 visits, Flashed FlashAlreadyVerified).
Proof.
  intros [Hlen Hfind] Hver. cbv zeta.
  assert (Hfind1 : find_verification
            (create_transaction_verification s u bid t now (upper (strip fc))) u
            (upper (strip fc)) = Some (i, v)).
  { unfold find_verification, create_transaction_verification in *. simpl.
    by apply list_find_app_l. }
  split; [done|].
  destruct (serve_all_keeps_lookup cb gtf visits _ u _ i v Hfind1)
    as (v' & Hfind' & _ & Hv' & _).
  rewrite verify_six, Hfind' by done. by rewrite Hv'.
Qed.
(** *** Renewal and its code; return and its wait *)

(** A renewal is applied at the request and once more when its code is
    confirmed: for a borrowing never renewed before, one request and its
    confirmation extend the due date by 28 days and use both renewals. *)
Theorem confirmed_renewal_renews_again s u bid now code b bk fc now' :
  borrowings s !! bid = Some b → b_user_id b = u → status b = Borrowed →
  books s !! b_book_id b = Some bk →
  renewed_count b < 1 → now <= due_date b →
  String.length code = 6%nat → upper (strip fc) = code →
  find_verification s u code = None →
  now' <= now + 24 * usec_per_hour → now' <= due_date b + 14 * usec_per_day →
  let s1 := (renew_book s u bid now code).1 in
  let s2 := (verify_transaction_code s1 u fc now').1 in
  borrowings s1 =
    <[bid := mkBorrowing (b_user_id b) (b_book_id b) Borrowed (borrow_date b)
               (due_date b + 14 * usec_per_day) (return_date b)
               (renewed_count b + 1) (fine_amount b) (fine_paid b)]> (borrowings s) ∧
  (verify_transaction_code s1 u fc now').2 = Flashed (FlashVerified TRenew (title bk)) ∧
  borrowings s2 =
    <[bid := mkBorrowing (b_user_id b) (b_book_id b) Borrowed (borrow_date b)
               (due_date b + 28 * usec_per_day) (return_date b)
               (renewed_count b + 2) (fine_amount b) (fine_paid b)]> (borrowings s).
Proof.
  intros Hb Hu Hst Hbk Hcount Hdue Hlen Hfc Hfresh Hnow1 Hnow2. cbv zeta.
  assert (Hlt : (bid < length (borrowings s))%nat) by by eapply lookup_lt_Some.
  assert (Hrenew : renew b now
    = Some (set_renewal (due_date b + timedelta_days max_borrow_days)
                        (renewed_count b + 1) b)).
  { unfold renew, can_renew, is_overdue, max_renewals.
    assert (H1 : (due_date b <? now) = false) by (apply Z.ltb_ge; lia).
    assert (H2 : (renewed_count b <? 2) = true) by (apply Z.ltb_lt; lia).
    by rewrite H1, H2. }
  unfold renew_book. rewrite (borrowed_by_Some s bid u b), Hrenew by done.
  cbn [fst snd with_borrowings books borrowings set_renewal b_book_id].
  rewrite Hbk. cbn [fst].
  set (b1 := set_renewal (due_date b + timedelta_days max_borrow_days)
                         (renewed_count b + 1) b).
  assert (Hrenew2 : renew b1 now'
    = Some (set_renewal (due_date b1 + timedelta_days max_borrow_days)
                        (renewed_count b1 + 1) b1)).
  { unfold renew, can_renew, is_overdue, max_renewals. subst b1. simpl.
    assert (H1 : (due_date b + timedelta_days max_borrow_days <? now') = false).
    { apply Z.ltb_ge. unfold timedelta_days, max_borrow_days. lia. }
    assert (H2 : (renewed_count b + 1 <? 2) = true) by (apply Z.ltb_lt; lia).
    by rewrite H1, H2. }
  assert (Hexp : (now + timedelta_hours 24 <? now') = false).
  { apply Z.ltb_ge. unfold timedelta_hours. lia. }
  split.
  { simpl. subst b1. unfold set_renewal, timedelta_days, max_borrow_days.
    by rewrite Hst. }
  rewrite verify_six by (rewrite Hfc; exact Hlen).
  rewrite Hfc. unfold find_verification, create_transaction_verification. simpl.
  unfold find_verification in Hfresh.
  rewrite list_find_app_r by done. simpl. rewrite decide_True by done. simpl.
  unfold is_expired. simpl. rewrite Hexp.
  unfold finalize. simpl.
  rewrite list_lookup_insert_eq by done.
  assert (Hcan : can_renew b1 now' = true).
  { unfold renew in Hrenew2. by destruct (can_renew b1 now'). }
  rewrite Hcan, Hrenew2. unfold commit_and_flash. simpl.
  rewrite Hbk. simpl. rewrite list_insert_insert_eq.
  split; [done|]. subst b1. unfold set_renewal, timedelta_days, max_borrow_days.
  simpl. rewrite Hst. do 2 f_equal; lia.
Qed.

(** A return request on a borrowed book issues a return code, sets the
    borrowing to pending_return and leaves the books alone; from then on,
    whatever visits follow, the borrowing can be neither returned again nor
    renewed: both requests are not found. *)
Theorem pending_return_blocks_return_and_renewal cb gtf s u bid now code b visits :
  borrowings s !! bid = Some b → b_user_id b = u → status b = Borrowed →
  let s1 := (return_book s u bid now code).1 in
  let s' := serve_all cb gtf s1 visits in
  (return_book s u bid now code).2 = Flashed FlashReturnRequested ∧
  (status <$> borrowings s1 !! bid) = Some PendingReturn ∧
  books s1 = books s ∧
  verifications s1 =
    verifications s ++
      [mkVerification u bid TReturn code now (now + 24 * usec_per_hour) false None] ∧
  ∀ u' now' code',
    return_book s' u' bid now' code' = (s', NotFound) ∧
    renew_book s' u' bid now' code' = (s', NotFound).
Proof.
  intros Hb Hu Hst. cbv zeta.
  assert (Hlt : (bid < length (borrowings s))%nat) by by eapply lookup_lt_Some.
  assert (E : return_book s u bid now code
    = (with_borrowings
         (<[bid := set_status PendingReturn b]> (borrowings s))
         (create_transaction_verification s u bid TReturn now code),
       Flashed FlashReturnRequested)).
  { unfold return_book. by rewrite (borrowed_by_Some s bid u b). }
  rewrite E. cbn [fst snd]. simpl.
  rewrite list_lookup_insert_eq by done. split_and!; try done.
  intros u' now' code'.
  match goal with |- context [serve_all cb gtf ?st visits] => set (s1 := st) end.
  destruct (borrowing_only_moves_forward cb gtf visits s1 bid
              (set_status PendingReturn b)) as (b' & Hb' & _ & _ & Hrank & _).
  { subst s1. simpl. by apply list_lookup_insert_eq. }
  assert (Hnone : borrowed_by (serve_all cb gtf s1 visits) bid u' = None).
  { unfold borrowed_by. rewrite Hb'. destruct (decide _) as [[_ Hst']|]; [|done].
    rewrite Hst' in Hrank. simpl in Hrank. lia. }
  unfold return_book, renew_book. by rewrite Hnone.
Qed.

(** *** Reviews *)

Lemma new_review_id_fresh (rows : list (nat * Review)) i row :
  rows !! i = Some row → (row.1 < new_review_id rows)%nat.
Proof.
  intros Hi. unfold new_review_id.
  assert (row.1 ∈ rows.*1) as Hin.
  { apply list_elem_of_fmap. exists row. split; [done|].
    by eapply list_elem_of_lookup_2. }
  apply max_list_elem_of_le in Hin. lia.
Qed.

Lemma lookup_delete_inj {A} (l : list A) d i j x y :
  delete d l !! i = Some x → delete d l !! j = Some y →
  ∃ i' j', l !! i' = Some x ∧ l !! j' = Some y ∧ (i' = j' → i = j).
Proof.
  intros Hi Hj.
  destruct (decide (i < d)%nat); destruct (decide (j < d)%nat).
  - rewrite list_lookup_delete_lt in Hi, Hj by done. exists i, j. auto.
  - rewrite list_lookup_delete_lt in Hi by done. rewrite list_lookup_delete_ge in Hj by lia.
    exists i, (S j). split_and!; [done..|lia].
  - rewrite list_lookup_delete_ge in Hi by lia. rewrite list_lookup_delete_lt in Hj by done.
    exists (S i), j. split_and!; [done..|lia].
  - rewrite list_lookup_delete_ge in Hi, Hj by lia.
    exists (S i), (S j). split_and!; [done..|lia].
Qed.

Lemma serve_review_well_formed s rows v :
  reviews_well_formed rows → reviews_well_formed (serve_review s rows v).
Proof.
  intros [Hids Hone]. destruct v as [u k stars text|u id stars text|u id]; simpl.
  - unfold add_review. destruct (books s !! k); [|done].
    destruct (review_of rows u k) eqn:Hnone; [done|].
    destruct stars as [n|]; [|done]. destruct (_ || _); [done|]. simpl.
    unfold review_of in Hnone. apply list_find_None in Hnone.
    split.
    + intros i j row row' Hi Hj Heq.
      apply lookup_snoc_Some in Hi as [[_ Hi]|[-> <-]];
        apply lookup_snoc_Some in Hj as [[_ Hj]|[-> <-]]; simpl in *.
      * by eapply Hids.
      * apply new_review_id_fresh in Hi. lia.
      * apply new_review_id_fresh in Hj. lia.
      * done.
    + intros i j row row' Hi Hj Hu Hk.
      apply lookup_snoc_Some in Hi as [[_ Hi]|[-> <-]];
        apply lookup_snoc_Some in Hj as [[_ Hj]|[-> <-]]; simpl in *.
      * by eapply Hone.
      * exfalso. by eapply (Forall_lookup_1 _ _ _ _ Hnone Hi).
      * exfalso. by eapply (Forall_lookup_1 _ _ _ _ Hnone Hj).
      * done.
  - unfold edit_review.
    destruct (own_review rows id u) as [[i0 [id0 rv]]|] eqn:Hfind; [|done].
    destruct stars as [n|]; [|done]. destruct text as [t|]; [|done].
    destruct (_ && _); [|done]. destruct (fits_sqlite_integer n); [|done]. simpl.
    apply list_find_Some in Hfind as (Hi0 & _ & _).
    assert (Hold : ∀ i row, <[i0 := (id0, mkReview (rv_user_id rv) (rv_book_id rv) n t)]>
                              rows !! i = Some row →
              ∃ row0, rows !! i = Some row0 ∧ row0.1 = row.1 ∧
                      rv_user_id row0.2 = rv_user_id row.2 ∧
                      rv_book_id row0.2 = rv_book_id row.2).
    { intros i row Hi. apply list_lookup_insert_Some in Hi as [(-> & <- & _)|[_ Hi]].
      - by exists (id0, rv).
      - by exists row. }
    split; intros i j row row' Hi Hj;
      destruct (Hold i row Hi) as (q & Hq & Hq1 & Hq2 & Hq3);
      destruct (Hold j row' Hj) as (q' & Hq' & Hq1' & Hq2' & Hq3').
    + intros Heq. apply (Hids i j q q'); congruence.
    + intros Hu Hk. apply (Hone i j q q'); congruence.
  - unfold delete_review.
    destruct (own_review rows id u) as [[i0 row0]|]; [|done]. simpl.
    split; intros i j row row' Hi Hj;
      destruct (lookup_delete_inj rows i0 i j row row' Hi Hj) as (i' & j' & Hi' & Hj' & Hinj).
    + intros Heq. apply Hinj. by eapply Hids.
    + intros Hu Hk. apply Hinj. by eapply Hone.
Qed.

(** Adding, editing and deleting reviews keep the ids of the reviews distinct
    and never give a reader two reviews of one book. *)
Theorem one_review_per_reader_and_book s visits : ∀ rows,
  reviews_well_formed rows →
  reviews_well_formed (foldl (serve_review s) rows visits).
Proof.
  induction visits as [|v visits IH]; intros rows Hrows; simpl; [done|].
  apply IH. by apply serve_review_well_formed.
Qed.

(** [edit_review] stores any rating that is not zero and fits the column:
    ratings stay between 1 and 5 under [add_review] and [delete_review], and
    under [edit_review] only if the new rating happens to be in that range.
    A rating that does not fit the column crashes the request and leaves
    the table as it was. *)
Theorem rating_is_checked_on_creation_only rows u id i rv n t :
  own_review rows id u = Some (i, (id, rv)) →
  n ≠ 0 → fits_sqlite_integer n = true → t ≠ EmptyString →
  edit_review rows u id (Some n) (Some t)
  = (<[i := (id, mkReview (rv_user_id rv) (rv_book_id rv) n t)]> rows,
     Reviewed ReviewUpdated) ∧
  (Forall rated_one_to_five (edit_review rows u id (Some n) (Some t)).1 → 1 <= n <= 5) ∧
  (∀ s u' k stars text,
     Forall rated_one_to_five rows →
     Forall rated_one_to_five (add_review s rows u' k stars text).1) ∧
  (∀ u' id', Forall rated_one_to_five rows →
             Forall rated_one_to_five (delete_review rows u' id').1) ∧
  (∀ m, fits_sqlite_integer m = false →
        edit_review rows u id (Some m) (Some t) = (rows, ReviewCrashed)).
Proof.
  intros Hfind Hn Hfits Ht.
  assert (E : edit_review rows u id (Some n) (Some t)
    = (<[i := (id, mkReview (rv_user_id rv) (rv_book_id rv) n t)]> rows,
       Reviewed ReviewUpdated)).
  { unfold edit_review. rewrite Hfind.
    apply Z.eqb_neq in Hn. rewrite Hn, Hfits. by rewrite bool_decide_eq_false_2. }
  rewrite E. simpl. split_and!; [done|..].
  - intros Hall. unfold own_review in Hfind.
    apply list_find_Some in Hfind as (Hi & _ & _).
    eapply (Forall_lookup_1 _ _ i) in Hall;
      [|apply list_lookup_insert_eq; by eapply lookup_lt_Some].
    exact Hall.
  - intros s u' k stars text Hall. unfold add_review.
    destruct (books s !! k); [|done]. destruct (review_of rows u' k); [done|].
    destruct stars as [m|]; [|done].
    destruct ((m =? 0) || (m <? 1) || (5 <? m)) eqn:Hbad; [done|]. simpl.
    apply orb_false_iff in Hbad as [[_ H1]%orb_false_iff H5].
    apply Z.ltb_ge in H1, H5.
    apply Forall_app. split; [done|]. by apply Forall_singleton.
  - intros u' id' Hall. unfold delete_review.
    destruct (own_review rows id' u') as [[j ?]|]; [|done]. simpl.
    by apply Forall_delete.
  - intros m Hm. unfold edit_review. rewrite Hfind, Hm.
    assert (Hm0 : (m =? 0) = false).
    { apply Z.eqb_neq. intros ->. discriminate Hm. }
    rewrite Hm0. by rewrite bool_decide_eq_false_2.
Qed.

(** ** The further properties at work on sample libraries *)

Lemma consumed_code_stays_consumed_witness :
  verify_transaction_code (serve_all always_allowed no_fine consumed_library busy_day)
    7 " ab12cd" (at_day 16)
  = (serve_all always_allowed no_fine consumed_library busy_day,
     Flashed FlashAlreadyVerified).
Proof.
  apply (consumed_code_stays_consumed always_allowed no_fine consumed_library 7
           " ab12cd" 0 (set_verified (at_day 15) (sample_code TBorrow)));
    [split; reflexivity | reflexivity].
Defined.

Lemma expired_code_stays_refused_witness :
  verify_transaction_code
    (serve_all always_allowed no_fine (library_with 1 Pending TBorrow) late_visits)
    7 "AB12CD" (at_day 18)
  = (serve_all always_allowed no_fine (library_with 1 Pending TBorrow) late_visits,
     Flashed FlashExpired).
Proof.
  apply (expired_code_stays_refused always_allowed no_fine
           (library_with 1 Pending TBorrow) 7 "AB12CD" 0 (sample_code TBorrow)
           late_visits (at_day 16) (at_day 18));
    [split; reflexivity | reflexivity | by vm_compute
    | repeat constructor; by vm_compute | by vm_compute].
Defined.

Lemma borrowing_only_moves_forward_witness :
  ∃ b', borrowings (serve_all always_allowed no_fine (library_with 0 Borrowed TBorrow)
                      busy_day) !! 0%nat = Some b' ∧
        b_user_id b' = 7%nat ∧ (1 ≤ status_rank (status b'))%nat.
Proof.
  destruct (borrowing_only_moves_forward always_allowed no_fine busy_day
              (library_with 0 Borrowed TBorrow) 0 (sample_borrowing Borrowed) eq_refl)
    as (b' & Hb' & Hu & _ & Hrank & _).
  exists b'. split_and!; [exact Hb' | exact Hu | exact Hrank].
Defined.

Lemma library_with_unique_pending avail st t : unique_pending (library_with avail st t).
Proof.
  intros [|[|[|i]]] [|[|[|j]]] r r' Hi Hj; simplify_eq/=; done.
Qed.

Lemma one_pending_reservation_per_reader_witness :
  unique_pending
    (serve_all always_allowed no_fine (library_with 0 Borrowed TBorrow) busy_day).
Proof.
  apply (one_pending_reservation_per_reader always_allowed no_fine busy_day
           (library_with 0 Borrowed TBorrow)).
  apply library_with_unique_pending.
Defined.

Lemma promoted_reservation_stays_first_witness :
  next_reservation
    (verify_transaction_code (library_with 0 PendingReturn TReturn) 7 "AB12CD"
       (at_day 15)).1 0
  = Some (1%nat, mkReservation 9 0 RPending (at_day 3) (Some (at_day 15 + timedelta_days 3))
                   true).
Proof.
  apply (promoted_reservation_stays_first (library_with 0 PendingReturn TReturn) 7
           "AB12CD" (at_day 15) 0 (sample_code TReturn) (sample_borrowing PendingReturn)
           (sample_book 0) 1 (mkReservation 9 0 RPending (at_day 3) None false));
    [split; reflexivity | reflexivity | reflexivity | reflexivity | reflexivity
    | reflexivity | vm_compute; reflexivity].
Defined.

Lemma reserve_then_cancel_witness :
  let s := library_with 0 Borrowed TBorrow in
  let s1 := (reserve s 5 0 (at_day 15)).1 in
  let s2 := (cancel_reservation s1 5 0).1 in
  user_reserved s 5 0 = false ∧ user_reserved s1 5 0 = true ∧
  user_reserved s2 5 0 = false ∧
  reservations s2
  = reservations s ++ [mkReservation 5 0 RCancelled (at_day 15) None false].
Proof.
  intros s s1 s2.
  destruct (reserve_then_cancel s 5 0 (at_day 15) (sample_book 0))
    as (_ & _ & H1 & _ & _ & H2 & H3 & _);
    [reflexivity | reflexivity | reflexivity | ].
  split_and!; [reflexivity | exact H1 | exact H3 | exact H2].
Defined.

Lemma reserve_or_borrow_never_both_witness :
  reserve (library_with 1 Returned TBorrow) 5 0 (at_day 15)
    = (library_with 1 Returned TBorrow, Noticed NoticeBorrowDirectly) ∧
  borrow always_allowed no_fine (library_with 0 Borrowed TBorrow) 5 0 (at_day 15) "ZZ99ZZ"
    = (library_with 0 Borrowed TBorrow, Flashed FlashNotAvailable).
Proof.
  split.
  - destruct (reserve_or_borrow_never_both (library_with 1 Returned TBorrow) 0
                (sample_book 1) eq_refl) as [[_ H]|[H _]]; [apply H|discriminate H].
  - destruct (reserve_or_borrow_never_both (library_with 0 Borrowed TBorrow) 0
                (sample_book 0) eq_refl) as [[H _]|[_ H]]; [discriminate H|apply H].
Defined.

Lemma copies_invariant_on_the_whole_site_witness :
  copies_invariant (serve_all always_allowed no_fine one_copy_library first_weeks) ∧
  books (serve_all always_allowed no_fine one_copy_library first_weeks)
    = [mkBook "Dune" 1 1].
Proof.
  split; [|vm_compute; reflexivity].
  apply (copies_invariant_on_the_whole_site always_allowed no_fine first_weeks
           one_copy_library).
  apply settled_library_consistent;
    [exact one_copy_library_invariant | reflexivity | reflexivity].
Defined.

Lemma blanks_and_case_do_not_matter_witness :
  verify_transaction_code (library_with 1 Pending TBorrow) 7 "  ab12cd " (at_day 15)
  = verify_transaction_code (library_with 1 Pending TBorrow) 7 "AB12CD" (at_day 15).
Proof.
  destruct (blanks_and_case_do_not_matter (library_with 1 Pending TBorrow) 7 "ab12cd"
              "  " " " (at_day 15) eq_refl eq_refl eq_refl) as (Hpad & Hup & _).
  etrans; [exact Hpad|]. symmetry. exact Hup.
Defined.

Lemma generated_code_is_in_normal_form_witness :
  generate_verification_code 6 (λ j, (7 * j + 20) `mod` 36)%nat = Some "U18FMT" ∧
  upper (strip "U18FMT") = "U18FMT".
Proof.
  split; [reflexivity|].
  apply (generated_code_is_in_normal_form 6 (λ j, (7 * j + 20) `mod` 36)%nat "U18FMT").
  reflexivity.
Defined.

Lemma emailed_code_confirms_the_borrow_witness :
  let s1 := (borrow always_allowed no_fine one_copy_library 7 0 (at_day 1) "U18FMT").1 in
  let s2 := (verify_transaction_code s1 7 " u18fmt " (at_day 2)).1 in
  borrowings s2
    = [mkBorrowing 7 0 Borrowed (Some (at_day 2)) (at_day 15) None 0 0 false] ∧
  books s2 = [mkBook "Dune" 1 0].
Proof.
  intros s1 s2.
  destruct (emailed_code_confirms_the_borrow always_allowed no_fine one_copy_library
              7 0 (at_day 1) "U18FMT" (sample_book 1)
              (λ j, (7 * j + 20) `mod` 36)%nat " u18fmt " (at_day 2))
    as (_ & Hbs & Hbk);
    [reflexivity | reflexivity | reflexivity | reflexivity | reflexivity | reflexivity
    | reflexivity | by vm_compute | ].
  fold s1 s2 in Hbs, Hbk. rewrite Hbs, Hbk. split; reflexivity.
Defined.

Lemma reused_code_cannot_be_confirmed_witness :
  let s1 := create_transaction_verification consumed_library 7 0 TReturn (at_day 15)
              "AB12CD" in
  verify_transaction_code (serve_all always_allowed no_fine s1 busy_day) 7 "AB12CD"
    (at_day 15)
  = (serve_all always_allowed no_fine s1 busy_day, Flashed FlashAlreadyVerified).
Proof.
  intros s1.
  destruct (reused_code_cannot_be_confirmed always_allowed no_fine consumed_library 7
              "AB12CD" 0 (set_verified (at_day 15) (sample_code TBorrow)) 0 TReturn
              (at_day 15) busy_day (at_day 15)) as [_ H];
    [split; reflexivity | reflexivity | ].
  exact H.
Defined.

Lemma confirmed_renewal_renews_again_witness :
  let s1 := (renew_book (library_with 0 Borrowed TBorrow) 7 0 (at_day 9) "REN001").1 in
  let s2 := (verify_transaction_code s1 7 "ren001" (at_day 9)).1 in
  borrowings s1 = [mkBorrowing 7 0 Borrowed None (at_day 24) None 1 0 false] ∧
  borrowings s2 = [mkBorrowing 7 0 Borrowed None (at_day 38) None 2 0 false].
Proof.
  intros s1 s2.
  destruct (confirmed_renewal_renews_again (library_with 0 Borrowed TBorrow) 7 0
              (at_day 9) "REN001" (sample_borrowing Borrowed) (sample_book 0) "ren001"
              (at_day 9))
    as (H1 & _ & H2);
    [reflexivity | reflexivity | reflexivity | reflexivity | by vm_compute
    | by vm_compute | reflexivity | reflexivity | reflexivity | by vm_compute
    | by vm_compute | ].
  fold s1 in H1. fold s1 s2 in H2. rewrite H1, H2. split; reflexivity.
Defined.

Lemma pending_return_blocks_return_and_renewal_witness :
  let s1 := (return_book (library_with 0 Borrowed TBorrow) 7 0 (at_day 15) "RET001").1 in
  return_book s1 7 0 (at_day 15) "RET002" = (s1, NotFound) ∧
  renew_book s1 7 0 (at_day 15) "REN001" = (s1, NotFound).
Proof.
  intros s1.
  destruct (pending_return_blocks_return_and_renewal always_allowed no_fine
              (library_with 0 Borrowed TBorrow) 7 0 (at_day 15) "RET001"
              (sample_borrowing Borrowed) [] eq_refl eq_refl eq_refl)
    as (_ & _ & _ & _ & H).
  split; [apply (H 7%nat (at_day 15) "RET002") | apply (H 7%nat (at_day 15) "REN001")].
Defined.

Lemma one_review_per_reader_and_book_witness :
  reviews_well_formed
    (foldl (serve_review one_copy_library) sample_reviews
       [DeleteReview 8 3; AddReview 9 0 (Some 5) " Loved it "; AddReview 9 0 (Some 1) "";
        EditReview 7 1 (Some 9) (Some "Too long")]) ∧
  (foldl (serve_review one_copy_library) sample_reviews
     [DeleteReview 8 3; AddReview 9 0 (Some 5) " Loved it "; AddReview 9 0 (Some 1) "";
      EditReview 7 1 (Some 9) (Some "Too long")]).*1 = [1%nat; 2%nat].
Proof.
  split; [|reflexivity].
  apply (one_review_per_reader_and_book one_copy_library).
  split; intros [|[|i]] [|[|j]] row row' Hi Hj; simplify_eq/=; done.
Defined.

Lemma rating_is_checked_on_creation_only_witness :
  edit_review sample_reviews 7 1 (Some 9) (Some "Too long")
  = ([(1%nat, mkReview 7 0 9 "Too long"); (3%nat, mkReview 8 0 5 "A classic")],
     Reviewed ReviewUpdated).
Proof.
  destruct (rating_is_checked_on_creation_only sample_reviews 7 1 0
              (mkReview 7 0 4 "Gripping") 9 "Too long") as [H _];
    [reflexivity | discriminate | reflexivity | discriminate | exact H].
Defined.
